(** * Job-fraud classifier service: text normalizer, artifact cache, prediction

    Shallow embedding of [docker/app/main.py].

    - Python [str] values are [string]s; a character is one code point of the
      Latin-1 range (0..255), with the classes [\w], [\s] and [str.lower] of
      Python 3 on that range.
    - The NLTK collaborators ([word_tokenize], the WordNet lemmatizer and the
      English stop-word set) are not part of the repository: they are section
      variables of the normalizer.
    - The two module-level dictionaries [model_cache] and [vectorizer_cache]
      are [gmap]s inside an explicit program state, next to an instrumented
      log of the paths handed to [joblib.load] and the lines printed. *)

From Stdlib Require Import ZArith QArith.QArith_base Ascii Lqa.
From stdpp Require Import base option list strings gmap fin_maps relations.

Local Open Scope Z_scope.

(** ** Python values and exceptions *)

(** The values a caller can hand to [preprocess_text]. *)
#[warnings="-register-all"]
Inductive pyval :=
| PyNone
| PyBool (b : bool)
| PyInt (z : Z)
| PyStr (s : string)
| PyList (l : list pyval).

(** Truth value of an object, as tested by [not text]. *)
Definition truthy (v : pyval) : bool :=
  match v with
  | PyNone => false
  | PyBool b => b
  | PyInt z => negb (z =? 0)
  | PyStr s => negb (bool_decide (s = ""))
  | PyList l => match l with [] => false | _ :: _ => true end
  end.

(** [isinstance(v, str)]. *)
Definition isinstance_str (v : pyval) : bool :=
  match v with PyStr _ => true | _ => false end.

(** Exception classes that occur in the module.  [FileNotFoundError] is the
    only class caught by name in the loader; [ValueError] is the class the
    loader raises for an unknown label. *)
Inductive exn_class :=
| ValueError
| FileNotFoundError
| PermissionError
| UnpicklingError
| EOFError
| AttributeError
| IndexError
| KeyError.

Global Instance exn_class_eq_dec : EqDecision exn_class.
Proof. solve_decision. Defined.

(** A raised exception: a built-in exception with its [str(e)] text, or the
    framework's [HTTPException(status_code, detail)]. *)
Inductive exn :=
| Exn (cls : exn_class) (msg : string)
| HTTPException (status_code : Z) (detail : string).

Inductive outcome (A : Type) :=
| Ok (a : A)
| Raise (e : exn).
Arguments Ok {A} a.
Arguments Raise {A} e.

Global Instance outcome_ret : MRet outcome := λ A a, Ok a.
Global Instance outcome_bind : MBind outcome := λ A B k m,
  match m with
  | Ok a => k a
  | Raise e => Raise e
  end.

(** [l[0]] on a Python list. *)
Definition getitem0 {A} (l : list A) : outcome A :=
  match l with
  | x :: _ => Ok x
  | [] => Raise (Exn IndexError "list index out of range")
  end.

(** ** Character classes (Python 3 [re] on [str], Latin-1 range) *)

Module Char.

Definition code (c : ascii) : N := N_of_ascii c.

Definition between (lo hi : N) (c : ascii) : bool :=
  ((lo <=? code c) && (code c <=? hi))%N.

(** [\s]: the characters for which [str.isspace()] holds. *)
Definition is_space (c : ascii) : bool :=
  between 9 13 c || between 28 32 c
  || (code c =? 133)%N || (code c =? 160)%N.

(** [str.isalpha()]. *)
Definition is_alpha (c : ascii) : bool :=
  between 65 90 c || between 97 122 c
  || (code c =? 170)%N || (code c =? 181)%N || (code c =? 186)%N
  || between 192 214 c || between 216 246 c || between 248 255 c.

(** [str.isdecimal() or str.isdigit() or str.isnumeric()]. *)
Definition is_numeric (c : ascii) : bool :=
  between 48 57 c
  || (code c =? 178)%N || (code c =? 179)%N || (code c =? 185)%N
  || between 188 190 c.

(** [\w]: alphanumeric or underscore. *)
Definition is_word (c : ascii) : bool :=
  is_alpha c || is_numeric c || (code c =? 95)%N.

Definition is_upper (c : ascii) : bool :=
  between 65 90 c || between 192 214 c || between 216 222 c.

(** One character of [str.lower()]. *)
Definition lower (c : ascii) : ascii :=
  if is_upper c then ascii_of_N (code c + 32) else c.

End Char.

(** ** String operations used by the normalizer *)

Module Str.

Fixpoint map (f : ascii → ascii) (s : string) : string :=
  match s with
  | EmptyString => EmptyString
  | String c s' => String (f c) (map f s')
  end.

Fixpoint filter (p : ascii → bool) (s : string) : string :=
  match s with
  | EmptyString => EmptyString
  | String c s' => if p c then String c (filter p s') else filter p s'
  end.

Fixpoint forallb (p : ascii → bool) (s : string) : bool :=
  match s with
  | EmptyString => true
  | String c s' => p c && forallb p s'
  end.

(** [s.lower()]. *)
Definition lower (s : string) : string := map Char.lower s.

(** [re.sub(r'[^\w\s]', '', s)]. *)
Definition sub_nonword (s : string) : string :=
  filter (λ c, Char.is_word c || Char.is_space c) s.

(** [re.sub(r'\s+', ' ', s)]: every maximal run of whitespace becomes one
    space.  [in_run] tells that the previous character was whitespace. *)
Fixpoint sub_ws_runs (in_run : bool) (s : string) : string :=
  match s with
  | EmptyString => EmptyString
  | String c s' =>
      if Char.is_space c
      then (if in_run then sub_ws_runs true s'
            else String " " (sub_ws_runs true s'))
      else String c (sub_ws_runs false s')
  end.

Fixpoint lstrip (s : string) : string :=
  match s with
  | EmptyString => EmptyString
  | String c s' => if Char.is_space c then lstrip s' else s
  end.

Fixpoint rstrip (s : string) : string :=
  match s with
  | EmptyString => EmptyString
  | String c s' =>
      match rstrip s' with
      | EmptyString => if Char.is_space c then EmptyString else String c EmptyString
      | r => String c r
      end
  end.

(** [s.strip()]. *)
Definition strip (s : string) : string := rstrip (lstrip s).

(** [sep.join(l)]. *)
Fixpoint join (sep : string) (l : list string) : string :=
  match l with
  | [] => ""
  | [x] => x
  | x :: l' => x +:+ sep +:+ join sep l'
  end.

(** [len(s)]. *)
Definition len (s : string) : Z := Z.of_nat (String.length s).

(** [text.split()] on whitespace, used by the sample tokenizer. *)
Fixpoint split_go (cur : option string) (s : string) : list string :=
  match s with
  | EmptyString => option_list (String.rev <$> cur)
  | String c s' =>
      if Char.is_space c
      then option_list (String.rev <$> cur) ++ split_go None s'
      else split_go (Some (String c (default "" cur))) s'
  end.
Definition split (s : string) : list string := split_go None s.

End Str.

(** ** Text normalizer *)

(** A text made of punctuation only: no character is in [\w] or [\s]. *)
Definition punctuation_only (s : string) : Prop :=
  Str.forallb (λ c, negb (Char.is_word c || Char.is_space c)) s = true.

(** A token that the first three steps leave alone: not empty, made of word
    characters, none of them upper case. *)
Definition clean_token (t : string) : Prop :=
  t ≠ "" ∧ Str.forallb (λ c, Char.is_word c && negb (Char.is_upper c)) t = true.

(** A string that starts with a character outside [\s]. *)
Definition starts_nonspace (s : string) : Prop :=
  match s with
  | EmptyString => False
  | String c _ => Char.is_space c = false
  end.

Global Instance clean_token_dec t : Decision (clean_token t).
Proof. unfold clean_token. apply _. Defined.

Section Normalizer.

(** [nltk.tokenize.word_tokenize]. *)
Variable word_tokenize : string → list string.
(** [WordNetLemmatizer().lemmatize], called with its default part of speech. *)
Variable lemmatize : string → string.
(** [set(stopwords.words('english'))]. *)
Variable stop_words : gset string.

(** [punctuation_remover]: the loop appends one cleaned string per input. *)
Fixpoint punctuation_remover_loop (cleaned_strings : list string)
    (strings : list string) : list string :=
  match strings with
  | [] => cleaned_strings
  | s :: rest =>
      punctuation_remover_loop (cleaned_strings ++ [Str.sub_nonword s]) rest
  end.

Definition punctuation_remover (strings : list string) : list string :=
  punctuation_remover_loop [] strings.

(** [[lemmatizer.lemmatize(word) for word in tokens if word not in stop_words]] *)
Definition lemmatize_nonstop (tokens : list string) : list string :=
  lemmatize <$> filter (λ word, word ∉ stop_words) tokens.

Definition preprocess_text (text : pyval) : outcome string :=
  if negb (truthy text) || negb (isinstance_str text) then Ok ""
  else
    match text with
    | PyStr text =>
        let text := Str.lower text in
        text ← getitem0 (punctuation_remover [text]);
        let text := Str.strip (Str.sub_ws_runs false text) in
        let tokens := word_tokenize text in
        let tokens := lemmatize_nonstop tokens in
        Ok (Str.join " " tokens)
    | _ => Ok ""
    end.

(** The specification's step 6, token by token: a stop word is dropped,
    any other token is replaced by its lemma. *)
Fixpoint drop_or_lemmatize (tokens : list string) : list string :=
  match tokens with
  | [] => []
  | t :: rest =>
      if decide (t ∈ stop_words) then drop_or_lemmatize rest
      else lemmatize t :: drop_or_lemmatize rest
  end.

(** The pipeline in the specification's words, steps 2 to 7. *)
Definition normalize_steps (text : string) : string :=
  let folded := Str.lower text in
  let stripped := Str.filter (λ c, Char.is_word c || Char.is_space c) folded in
  let collapsed := Str.strip (Str.sub_ws_runs false stripped) in
  let tokens := word_tokenize collapsed in
  Str.join " " (drop_or_lemmatize tokens).

(** [preprocess_text(preprocess_text(x))]. *)
Definition preprocess_twice (x : string) : outcome string :=
  y ← preprocess_text (PyStr x); preprocess_text (PyStr y).

(** The tokens that [preprocess_text] joins for the text [x]. *)
Definition surviving_lemmas (x : string) : list string :=
  lemmatize_nonstop
    (word_tokenize
       (Str.strip (Str.sub_ws_runs false (Str.sub_nonword (Str.lower x))))).

(** The joined tokens survive a second pass unchanged: each is clean, is no
    stop word and is its own lemma, and the tokenizer splits their joined
    text back into them. *)
Definition stable_lemmas (ts : list string) : bool :=
  bool_decide (Forall clean_token ts)
  && bool_decide (Forall (λ t, t ∉ stop_words) ts)
  && bool_decide (Forall (λ t, lemmatize t = t) ts)
  && bool_decide (word_tokenize (Str.join " " ts) = ts).

End Normalizer.

(** A sample of the NLTK collaborators, for evaluating the normalizer on
    concrete text.  On lower-case text without punctuation and without the
    Treebank contractions, [word_tokenize] splits at white space; the lemmas
    and stop words listed are those of WordNet and of the English stop-word
    list. *)
Module Sample.

Definition word_tokenize (s : string) : list string := Str.split s.

Definition lemma_table : list (string * string) :=
  [("cans", "can"); ("weeks", "week"); ("jobs", "job");
   ("positions", "position"); ("skills", "skill")].

Fixpoint lemma_of (table : list (string * string)) (w : string) : string :=
  match table with
  | [] => w
  | (form, lemma) :: rest =>
      if bool_decide (form = w) then lemma else lemma_of rest w
  end.

Definition lemmatize (w : string) : string := lemma_of lemma_table w.

Definition stop_words : gset string :=
  list_to_set
    ["i"; "me"; "my"; "we"; "our"; "you"; "your"; "he"; "she"; "it";
     "they"; "them"; "this"; "that"; "am"; "is"; "are"; "was"; "were";
     "be"; "been"; "have"; "has"; "had"; "do"; "does"; "did"; "a"; "an";
     "the"; "and"; "but"; "if"; "or"; "as"; "of"; "at"; "by"; "for";
     "with"; "to"; "from"; "in"; "out"; "on"; "off"; "no"; "not"; "so";
     "can"; "will"; "just"; "now"].

Definition preprocess_text : pyval → outcome string :=
  preprocess_text word_tokenize lemmatize stop_words.

End Sample.


(** ** Artifacts and the registry *)

(** One row of the document-term matrix produced by a vectorizer. *)
Definition features := list Q.

(** What [joblib.load] can return: the module only ever calls [transform] on
    the second component of a pair and [predict] / [predict_proba] on the
    first.  [predict] and [predict_proba] are given for the single document
    of the batch. *)
Inductive artifact :=
| Vectorizer (transform : string → features)
| Classifier (predict : features → Z) (predict_proba : features → list Q).

(** Result of [joblib.load(path)]. *)
Inductive load_result :=
| Loaded (a : artifact)
| LoadRaises (cls : exn_class) (msg : string).

(** The artifact store: what [joblib.load] answers for each path. *)
Definition disk := string → load_result.

(** [MODEL_CONFIG]; a dictionary literal keeps its insertion order, which
    [list(MODEL_CONFIG.keys())] shows. *)
Definition MODEL_CONFIG : list (string * (string * string)) :=
  [("nb_bow", ("nb_model_bow.joblib", "bow_vectorizer.joblib"));
   ("nb_bow_res", ("nb_model_bow_res.joblib", "bow_vectorizer.joblib"));
   ("nb_tfidf", ("nb_model_tfidf.joblib", "tfidf_vectorizer.joblib"));
   ("nb_tfidf_res", ("nb_model_tfidf_res.joblib", "tfidf_vectorizer.joblib"));
   ("lr_bow", ("lr_model_bow.joblib", "bow_vectorizer.joblib"));
   ("lr_bow_res", ("lr_model_bow_res.joblib", "bow_vectorizer.joblib"));
   ("lr_tfidf", ("lr_model_tfidf.joblib", "tfidf_vectorizer.joblib"));
   ("lr_tfidf_res", ("lr_model_tfidf_res.joblib", "tfidf_vectorizer.joblib"))].

(** [d[k]] / [k in d] on a dictionary kept as an association list. *)
Fixpoint dict_get {V} (d : list (string * V)) (k : string) : option V :=
  match d with
  | [] => None
  | (k', v) :: rest => if bool_decide (k' = k) then Some v else dict_get rest k
  end.

Definition dict_keys {V} (d : list (string * V)) : list string := fst <$> d.

(** [model_label in MODEL_CONFIG]; [None] is never a key. *)
Definition in_config (model_label : option string) : bool :=
  match model_label with
  | Some k => bool_decide (is_Some (dict_get MODEL_CONFIG k))
  | None => false
  end.

(** [f"{model_label}"] for an [Optional[str]]. *)
Definition format_label (model_label : option string) : string :=
  default "None" model_label.

(** [repr] of a list of plain strings, as an f-string shows it. *)
Definition repr_str (s : string) : string := "'" +:+ s +:+ "'".
Definition repr_list (l : list string) : string :=
  "[" +:+ Str.join ", " (repr_str <$> l) +:+ "]".

Definition unknown_label_message (model_label : option string) : string :=
  "Unknown model label: " +:+ format_label model_label
  +:+ ". Available models: " +:+ repr_list (dict_keys MODEL_CONFIG).

(** ** Program state *)

Record state := State {
  model_cache : gmap string artifact;
  vectorizer_cache : gmap string artifact;
  (** paths handed to [joblib.load], oldest first *)
  loaded_paths : list string;
  (** lines written by [print], oldest first *)
  stdout : list string
}.

Definition initial_state : state :=
  {| model_cache := ∅; vectorizer_cache := ∅; loaded_paths := []; stdout := [] |}.

Definition log_load (path : string) (st : state) : state :=
  {| model_cache := model_cache st; vectorizer_cache := vectorizer_cache st;
     loaded_paths := loaded_paths st ++ [path]; stdout := stdout st |}.

Definition cache_store (model_label : string) (model vectorizer : artifact)
    (st : state) : state :=
  {| model_cache := <[model_label := model]> (model_cache st);
     vectorizer_cache := <[model_label := vectorizer]> (vectorizer_cache st);
     loaded_paths := loaded_paths st; stdout := stdout st |}.

Definition print (line : string) (st : state) : state :=
  {| model_cache := model_cache st; vectorizer_cache := vectorizer_cache st;
     loaded_paths := loaded_paths st; stdout := stdout st ++ [line] |}.

(** [model_label in model_cache and model_label in vectorizer_cache] *)
Definition cached (model_label : string) (st : state) : bool :=
  bool_decide (is_Some (model_cache st !! model_label))
  && bool_decide (is_Some (vectorizer_cache st !! model_label)).

(** ** Requests and responses *)

Record PredictionRequest := {
  job_description : string;
  model_label : option string
}.

Record PredictionResponse := {
  prediction_label : string;
  prediction_code : Z;
  confidence_score : Q;
  probabilities_non_fraudulent : Q;
  probabilities_fraudulent : Q;
  input_text_length : Z;
  cleaned_text_length : Z;
  model_used : option string
}.

(** A field of the request body before validation. *)
Inductive body_field :=
| Absent
| Null
| Text (s : string).

Record request_body := {
  body_job_description : body_field;
  body_model_label : body_field
}.

(** Validation of a body against the [PredictionRequest] schema:
    [job_description: str] is required, [model_label: Optional[str]] takes its
    default ["nb_bow"] when the field is not there. *)
Definition validate (b : request_body) : option PredictionRequest :=
  match body_job_description b with
  | Text jd =>
      Some {| job_description := jd;
              model_label :=
                match body_model_label b with
                | Absent => Some "nb_bow"
                | Null => None
                | Text l => Some l
                end |}
  | _ => None
  end.

(** [a[i]] on a sequence with an integer index: negative indices count from
    the end, anything else out of range raises. *)
Definition getitem {A} (l : list A) (i : Z) : outcome A :=
  let n := Z.of_nat (length l) in
  let j := if i <? 0 then i + n else i in
  if (0 <=? j) && (j <? n)
  then match l !! Z.to_nat j with
       | Some x => Ok x
       | None => Raise (Exn IndexError "index out of bounds")
       end
  else Raise (Exn IndexError "index out of bounds").

Definition call_transform (vectorizer : artifact) (text : string) : outcome features :=
  match vectorizer with
  | Vectorizer transform => Ok (transform text)
  | Classifier _ _ => Raise (Exn AttributeError "object has no attribute 'transform'")
  end.

Definition call_predict (model : artifact) (x : features) : outcome Z :=
  match model with
  | Classifier predict _ => Ok (predict x)
  | Vectorizer _ => Raise (Exn AttributeError "object has no attribute 'predict'")
  end.

Definition call_predict_proba (model : artifact) (x : features) : outcome (list Q) :=
  match model with
  | Classifier _ predict_proba => Ok (predict_proba x)
  | Vectorizer _ => Raise (Exn AttributeError "object has no attribute 'predict_proba'")
  end.

(** ** Artifact cache and prediction endpoint *)

Section Service.

Variable word_tokenize : string → list string.
Variable lemmatize : string → string.
Variable stop_words : gset string.
(** [Path(__file__).resolve().parent.parent], as text. *)
Variable BASE_DIR : string.

Definition MODEL_ASSETS_DIR : string := BASE_DIR +:+ "/model_assets".

Definition asset_path (filename : string) : string :=
  MODEL_ASSETS_DIR +:+ "/" +:+ filename.

(** The [except FileNotFoundError as e] clause of the loader: that class is
    re-raised with the label in front, every other exception passes. *)
Definition load_handler (model_label : string) (cls : exn_class)
    (msg : string) : exn :=
  match cls with
  | FileNotFoundError =>
      Exn FileNotFoundError
        ("Model assets not found for '" +:+ model_label +:+ "': " +:+ msg)
  | _ => Exn cls msg
  end.

Definition load_model_and_vectorizer (d : disk) (model_label : option string)
    (st : state) : outcome (artifact * artifact) * state :=
  if negb (in_config model_label)
  then (Raise (Exn ValueError (unknown_label_message model_label)), st)
  else
    match model_label with
    | None => (Raise (Exn ValueError (unknown_label_message model_label)), st)
    | Some label =>
        match model_cache st !! label, vectorizer_cache st !! label with
        | Some model, Some vectorizer => (Ok (model, vectorizer), st)
        | _, _ =>
            match dict_get MODEL_CONFIG label with
            | None => (Raise (Exn KeyError (repr_str label)), st)
            | Some (model_filename, vectorizer_filename) =>
                let model_path := asset_path model_filename in
                let vectorizer_path := asset_path vectorizer_filename in
                let st := log_load model_path st in
                match d model_path with
                | LoadRaises cls msg => (Raise (load_handler label cls msg), st)
                | Loaded model =>
                    let st := log_load vectorizer_path st in
                    match d vectorizer_path with
                    | LoadRaises cls msg =>
                        (Raise (load_handler label cls msg), st)
                    | Loaded vectorizer =>
                        let st := cache_store label model vectorizer st in
                        let st :=
                          print ("Loaded model '" +:+ label +:+ "' successfully.") st in
                        (Ok (model, vectorizer), st)
                    end
                end
            end
        end
    end.

(** The three [except] clauses around the loader call, in their order. *)
Definition load_error_to_http (e : exn) : exn :=
  match e with
  | Exn ValueError msg => HTTPException 400 msg
  | Exn FileNotFoundError msg => HTTPException 500 msg
  | Exn _ msg => HTTPException 500 ("Error loading model: " +:+ msg)
  | HTTPException _ detail => HTTPException 500 ("Error loading model: " +:+ detail)
  end.

Definition predict_fraud (d : disk) (data : PredictionRequest) (st : state)
    : outcome PredictionResponse * state :=
  match load_model_and_vectorizer d (model_label data) st with
  | (Raise e, st) => (Raise (load_error_to_http e), st)
  | (Ok (model, vectorizer), st) =>
      (cleaned_text ←
         preprocess_text word_tokenize lemmatize stop_words
           (PyStr (job_description data));
       text_features ← call_transform vectorizer cleaned_text;
       prediction_code ← call_predict model text_features;
       probabilities ← call_predict_proba model text_features;
       confidence_score ← getitem probabilities prediction_code;
       let result :=
         if prediction_code =? 1 then "Fraudulent (Fake)"
         else "Non-Fraudulent (Real)" in
       non_fraudulent ← getitem probabilities 0;
       fraudulent ← getitem probabilities 1;
       Ok {| prediction_label := result;
             prediction_code := prediction_code;
             confidence_score := confidence_score;
             probabilities_non_fraudulent := non_fraudulent;
             probabilities_fraudulent := fraudulent;
             input_text_length := Str.len (job_description data);
             cleaned_text_length := Str.len cleaned_text;
             model_used := model_label data |},
       st)
  end.

(** The [/predict] route: the body is validated against [PredictionRequest]
    before the handler runs; a body that does not validate is answered with
    status 422 by the framework. *)
Definition post_predict (d : disk) (body : request_body) (st : state)
    : outcome PredictionResponse * state :=
  match validate body with
  | Some data => predict_fraud d data st
  | None => (Raise (HTTPException 422 "Unprocessable Entity"), st)
  end.

(** One call of the loader, with whatever the store holds at that time. *)
Definition step (st st' : state) : Prop :=
  ∃ d model_label r, load_model_and_vectorizer d model_label st = (r, st').

(** States the process can be in: any number of loader calls after start. *)
Definition reachable (st : state) : Prop := rtc step initial_state st.

End Service.

(** Index of the larger of two probabilities, the first one on a tie. *)
Definition index_of_larger (p0 p1 : Q) : Z :=
  if Qle_bool p1 p0 then 0 else 1.

(** Sample artifact stores, for evaluating the loader and the endpoint. *)
Module SampleDisk.

Definition base_dir : string := "/app".

Definition bow_vectorizer : artifact :=
  Vectorizer (λ text, [inject_Z (Str.len text)]).

(** A classifier whose [predict] is the arg-max of its [predict_proba]. *)
Definition nb_model_bow : artifact :=
  Classifier (λ _, 1) (λ _, [1 # 10; 9 # 10]%Q).

(** A classifier whose [predict] disagrees with its [predict_proba]. *)
Definition odd_model : artifact :=
  Classifier (λ _, 1) (λ _, [9 # 10; 1 # 10]%Q).

Definition not_found (path : string) : load_result :=
  LoadRaises FileNotFoundError
    ("[Errno 2] No such file or directory: '" +:+ path +:+ "'").

(** Only the two files of ["nb_bow"] are there. *)
Definition good : disk := λ path,
  if bool_decide (path = "/app/model_assets/nb_model_bow.joblib")
  then Loaded nb_model_bow
  else if bool_decide (path = "/app/model_assets/bow_vectorizer.joblib")
  then Loaded bow_vectorizer
  else not_found path.

(** The model file of ["nb_bow"] holds the odd classifier. *)
Definition odd : disk := λ path,
  if bool_decide (path = "/app/model_assets/nb_model_bow.joblib")
  then Loaded odd_model
  else good path.

(** No file is there. *)
Definition empty : disk := not_found.

(** The model file of ["nb_bow"] is there but does not unpickle. *)
Definition corrupt : disk := λ path,
  if bool_decide (path = "/app/model_assets/nb_model_bow.joblib")
  then LoadRaises UnpicklingError "invalid load key, 'x'."
  else good path.

(** The state after the first request for ["nb_bow"] on the good store. *)
Definition after_nb_bow : state :=
  (load_model_and_vectorizer base_dir good (Some "nb_bow") initial_state).2.

Definition request : PredictionRequest :=
  {| job_description := "Earn money from home"; model_label := Some "nb_bow" |}.

(** The answer to [request] on the good store. *)
Definition response : PredictionResponse :=
  {| prediction_label := "Fraudulent (Fake)";
     prediction_code := 1;
     confidence_score := (9 # 10)%Q;
     probabilities_non_fraudulent := (1 # 10)%Q;
     probabilities_fraudulent := (9 # 10)%Q;
     input_text_length := 20;
     cleaned_text_length := 15;
     model_used := Some "nb_bow" |}.

End SampleDisk.

(** More sample stores. *)
Module MoreDisks.

(** The vectorizer file of ["nb_bow"] holds a classifier. *)
Definition swapped : disk := λ path,
  if bool_decide (path = "/app/model_assets/bow_vectorizer.joblib")
  then Loaded SampleDisk.nb_model_bow
  else SampleDisk.good path.

(** The model file of ["nb_bow"] was pickled with a protocol that this
    interpreter does not read. *)
Definition bad_protocol : disk := λ path,
  if bool_decide (path = "/app/model_assets/nb_model_bow.joblib")
  then LoadRaises ValueError "unsupported pickle protocol: 6"
  else SampleDisk.good path.

(** The state after a request for ["nb_bow"] on the swapped store. *)
Definition after_swapped : state :=
  (load_model_and_vectorizer SampleDisk.base_dir swapped (Some "nb_bow")
     initial_state).2.

End MoreDisks.

(** ** The cleaning phase of the normalizer and the CORS origins *)

(** The text that [preprocess_text] hands to the tokenizer: lower-cased,
    punctuation removed, whitespace collapsed and trimmed. *)
Definition clean_text (s : string) : string :=
  Str.strip (Str.sub_ws_runs false (Str.sub_nonword (Str.lower s))).

(** A character of cleaned text: the space, or a word character that is not
    upper case. *)
Definition tidy_char (c : ascii) : bool :=
  bool_decide (c = " "%char) || Char.is_word c && negb (Char.is_upper c).

(** Every whitespace character is the space, none follows another one or
    starts the text ([after_space] at the start), none ends it. *)
Fixpoint single_spaces (after_space : bool) (s : string) : bool :=
  match s with
  | EmptyString => negb after_space
  | String c s' =>
      if Char.is_space c
      then bool_decide (c = " "%char) && negb after_space && single_spaces true s'
      else single_spaces false s'
  end.

(** Lower-case words separated by single spaces, or nothing at all. *)
Definition tidy (t : string) : bool :=
  Str.forallb tidy_char t && (bool_decide (t = "") || single_spaces true t).

(** [s.split(sep)] for a separator of one character: one piece more than
    there are separators, empty pieces included. *)
Fixpoint split_on (sep : ascii) (s : string) : list string :=
  match s with
  | EmptyString => [""]
  | String c s' =>
      if bool_decide (c = sep) then "" :: split_on sep s'
      else match split_on sep s' with
           | piece :: rest => String c piece :: rest
           | [] => [String c ""]
           end
  end.

(** [s.count(sep)] for a separator of one character. *)
Fixpoint count_char (sep : ascii) (s : string) : nat :=
  match s with
  | EmptyString => 0
  | String c s' => (if bool_decide (c = sep) then 1 else 0) + count_char sep s'
  end.

(** [allowed_origins]: the value of the environment variable [CORS_ORIGINS],
    or the two development origins when it is not set, split at the commas,
    each piece stripped. *)
Definition allowed_origins (CORS_ORIGINS : option string) : list string :=
  Str.strip
    <$> split_on ","
          (default "http://localhost:3000,http://127.0.0.1:3000" CORS_ORIGINS).

(** One request to the [/predict] route. *)
Definition served (word_tokenize : string → list string)
    (lemmatize : string → string) (stop_words : gset string)
    (BASE_DIR : string) (st st' : state) : Prop :=
  ∃ d body r,
    post_predict word_tokenize lemmatize stop_words BASE_DIR d body st = (r, st').

(** The part of [predict_fraud] after the loader call: what the handler
    computes from the loaded pair and the request. *)
Definition respond (word_tokenize : string → list string)
    (lemmatize : string → string) (stop_words : gset string)
    (model vectorizer : artifact) (data : PredictionRequest)
    : outcome PredictionResponse :=
  cleaned_text ←
    preprocess_text word_tokenize lemmatize stop_words
      (PyStr (job_description data));
  text_features ← call_transform vectorizer cleaned_text;
  prediction_code ← call_predict model text_features;
  probabilities ← call_predict_proba model text_features;
  confidence_score ← getitem probabilities prediction_code;
  let result :=
    if prediction_code =? 1 then "Fraudulent (Fake)"
    else "Non-Fraudulent (Real)" in
  non_fraudulent ← getitem probabilities 0;
  fraudulent ← getitem probabilities 1;
  Ok {| prediction_label := result;
        prediction_code := prediction_code;
        confidence_score := confidence_score;
        probabilities_non_fraudulent := non_fraudulent;
        probabilities_fraudulent := fraudulent;
        input_text_length := Str.len (job_description data);
        cleaned_text_length := Str.len cleaned_text;
        model_used := model_label data |}.

(** The properties of a state that every loader call keeps. *)
Definition run_invariant (st : state) : Prop :=
  dom (model_cache st) = dom (vectorizer_cache st)
  ∧ (∀ label, label ∈ dom (model_cache st) → in_config (Some label) = true)
  ∧ length (stdout st) = size (model_cache st)
  ∧ (2 * size (model_cache st) ≤ length (loaded_paths st))%nat.

(** * Properties *)

Example sample_earn :
  Sample.preprocess_text
    (PyStr "Earn $5000/week working from home, no experience needed!!!")
  = Ok "earn 5000week working home experience needed".
Proof. vm_compute. reflexivity. Qed.

(** ** Strings *)

Lemma app_cons c (s t : string) : String c s +:+ t = String c (s +:+ t).
Proof. reflexivity. Qed.

Lemma app_empty_l (t : string) : "" +:+ t = t.
Proof. reflexivity. Qed.

Lemma app_eq_empty (s t : string) : s +:+ t = "" → s = "" ∧ t = "".
Proof. destruct s; [intros H; rewrite app_empty_l in H; auto | discriminate]. Qed.

Lemma word_not_space c : Char.is_word c = true → Char.is_space c = false.
Proof. destruct c as [[] [] [] [] [] [] [] []]; vm_compute; congruence. Qed.

Lemma lower_not_upper c : Char.is_upper c = false → Char.lower c = c.
Proof. unfold Char.lower. by intros ->. Qed.

Lemma map_app f (s t : string) : Str.map f (s +:+ t) = Str.map f s +:+ Str.map f t.
Proof.
  induction s as [|c s IH]; [done|].
  rewrite app_cons. simpl. rewrite IH. by rewrite app_cons.
Qed.

Lemma filter_app p (s t : string) :
  Str.filter p (s +:+ t) = Str.filter p s +:+ Str.filter p t.
Proof.
  induction s as [|c s IH]; [done|].
  rewrite app_cons. simpl. destruct (p c); [|done].
  by rewrite app_cons, IH.
Qed.

Lemma forallb_app p (s t : string) :
  Str.forallb p (s +:+ t) = Str.forallb p s && Str.forallb p t.
Proof.
  induction s as [|c s IH]; [done|].
  rewrite app_cons. simpl. rewrite IH. by rewrite andb_assoc.
Qed.

Lemma filter_all p (s : string) : Str.forallb p s = true → Str.filter p s = s.
Proof.
  induction s as [|c s IH]; [done|]. simpl.
  intros [Hc Hs]%andb_true_iff. rewrite Hc. by rewrite IH.
Qed.

Lemma filter_none p (s : string) :
  Str.forallb (λ c, negb (p c)) s = true → Str.filter p s = "".
Proof.
  induction s as [|c s IH]; [done|]. simpl.
  intros [Hc Hs]%andb_true_iff. apply negb_true_iff in Hc. rewrite Hc. auto.
Qed.

Lemma forallb_impl (p q : ascii → bool) (s : string) :
  (∀ c, p c = true → q c = true) →
  Str.forallb p s = true → Str.forallb q s = true.
Proof.
  intros Hpq. induction s as [|c s IH]; [done|]. simpl.
  intros [Hc Hs]%andb_true_iff. rewrite (Hpq _ Hc). simpl. auto.
Qed.

Lemma forallb_map p f (s : string) :
  Str.forallb p (Str.map f s) = Str.forallb (λ c, p (f c)) s.
Proof. induction s as [|c s IH]; [done|]. simpl. by rewrite IH. Qed.

Lemma starts_nonspace_app s t : starts_nonspace s → starts_nonspace (s +:+ t).
Proof. by destruct s. Qed.

Lemma sub_ws_runs_start b s :
  starts_nonspace s → Str.sub_ws_runs b s = Str.sub_ws_runs false s.
Proof. destruct s as [|c s]; [done|]. simpl. by intros ->. Qed.

Lemma sub_ws_runs_app_nonspace b (t s : string) :
  t ≠ "" →
  Str.forallb (λ c, negb (Char.is_space c)) t = true →
  Str.sub_ws_runs b (t +:+ s) = t +:+ Str.sub_ws_runs false s.
Proof.
  revert b. induction t as [|c t IH]; [done|].
  intros b _ [Hc Ht]%andb_true_iff. apply negb_true_iff in Hc.
  rewrite !app_cons. simpl. rewrite Hc. f_equal.
  destruct t as [|c' t]; [done|]. by apply IH.
Qed.

Lemma sub_ws_runs_nonspace b (t : string) :
  Str.forallb (λ c, negb (Char.is_space c)) t = true →
  Str.sub_ws_runs b t = t.
Proof.
  revert b. induction t as [|c t IH]; [done|].
  intros b [Hc Ht]%andb_true_iff. apply negb_true_iff in Hc.
  simpl. rewrite Hc. f_equal. by apply IH.
Qed.

Lemma lstrip_start s : starts_nonspace s → Str.lstrip s = s.
Proof. destruct s as [|c s]; [done|]. simpl. by intros ->. Qed.

Lemma rstrip_nonspace (t : string) :
  Str.forallb (λ c, negb (Char.is_space c)) t = true → Str.rstrip t = t.
Proof.
  induction t as [|c t IH]; [done|].
  intros [Hc Ht]%andb_true_iff. apply negb_true_iff in Hc.
  simpl. rewrite (IH Ht), Hc. by destruct t.
Qed.

Lemma rstrip_app (s t : string) :
  Str.rstrip t ≠ "" → Str.rstrip (s +:+ t) = s +:+ Str.rstrip t.
Proof.
  intros Ht. induction s as [|c s IH]; [done|].
  rewrite !app_cons. simpl. rewrite IH.
  destruct (s +:+ Str.rstrip t) eqn:E; [|done].
  apply app_eq_empty in E as [_ E]. done.
Qed.

Lemma join_cons2 sep (x y : string) (l : list string) :
  Str.join sep (x :: y :: l) = x +:+ sep +:+ Str.join sep (y :: l).
Proof. reflexivity. Qed.

Lemma clean_token_lower t : clean_token t → Str.lower t = t.
Proof.
  intros [_ H]. induction t as [|c t IH]; [done|].
  simpl in H. apply andb_true_iff in H as [Hc Ht].
  apply andb_true_iff in Hc as [_ Hu]. apply negb_true_iff in Hu.
  unfold Str.lower in *. simpl. rewrite (lower_not_upper _ Hu). f_equal. auto.
Qed.

Lemma clean_token_word t :
  clean_token t → Str.forallb (λ c, Char.is_word c || Char.is_space c) t = true.
Proof.
  intros [_ H]. revert H. apply forallb_impl.
  intros c [Hw _]%andb_true_iff. by rewrite Hw.
Qed.

Lemma clean_token_nonspace t :
  clean_token t → Str.forallb (λ c, negb (Char.is_space c)) t = true.
Proof.
  intros [_ H]. revert H. apply forallb_impl.
  intros c [Hw _]%andb_true_iff. by rewrite (word_not_space _ Hw).
Qed.

Lemma clean_token_starts t : clean_token t → starts_nonspace t.
Proof.
  intros [Hne H]. destruct t as [|c t]; [done|]. simpl in *.
  apply andb_true_iff in H as [Hc _]. apply andb_true_iff in Hc as [Hw _].
  by apply word_not_space.
Qed.

(** The space-joined text of clean tokens is a fixed point of case folding,
    of punctuation removal, of whitespace collapsing and of trimming. *)
Lemma join_clean_fixed (ts : list string) :
  Forall clean_token ts → ts ≠ [] →
  let y := Str.join " " ts in
  Str.lower y = y ∧ Str.sub_nonword y = y ∧ starts_nonspace y
  ∧ Str.sub_ws_runs false y = y ∧ Str.rstrip y = y ∧ y ≠ "".
Proof.
  induction 1 as [|t ts Ht Hts IH]; [done|]. intros _.
  destruct ts as [|t2 ts].
  - simpl. split_and!.
    + by apply clean_token_lower.
    + apply filter_all. by apply clean_token_word.
    + by apply clean_token_starts.
    + apply sub_ws_runs_nonspace. by apply clean_token_nonspace.
    + apply rstrip_nonspace. by apply clean_token_nonspace.
    + apply Ht.
  - destruct IH as (Hl & Hp & Hs & Hw & Hr & Hne); [done|].
    rewrite join_cons2. cbv zeta. set (J := Str.join " " (t2 :: ts)) in *.
    split_and!.
    + unfold Str.lower in *. rewrite !map_app, Hl.
      fold (Str.lower t). by rewrite (clean_token_lower _ Ht).
    + unfold Str.sub_nonword in *. rewrite !filter_app, Hp.
      by rewrite (filter_all _ t (clean_token_word _ Ht)).
    + apply starts_nonspace_app. by apply clean_token_starts.
    + rewrite sub_ws_runs_app_nonspace;
        [|apply Ht|by apply clean_token_nonspace].
      rewrite app_cons, app_empty_l. simpl.
      by rewrite (sub_ws_runs_start true J Hs), Hw.
    + assert (Str.rstrip (" " +:+ J) = " " +:+ J) as HJ.
      { rewrite rstrip_app; by rewrite Hr. }
      rewrite rstrip_app; rewrite HJ; [done|].
      by rewrite app_cons.
    + intros [E _]%app_eq_empty. by apply Ht.
Qed.

(** ** Normalizer *)

Section NormalizerFacts.

Variable word_tokenize : string → list string.
Variable lemmatize : string → string.
Variable stop_words : gset string.

Local Abbreviation preprocess_text := (preprocess_text word_tokenize lemmatize stop_words).
Local Abbreviation preprocess_twice := (preprocess_twice word_tokenize lemmatize stop_words).
Local Abbreviation surviving_lemmas := (surviving_lemmas word_tokenize lemmatize stop_words).
Local Abbreviation normalize_steps := (normalize_steps word_tokenize lemmatize stop_words).

Lemma punctuation_remover_loop_spec (acc strings : list string) :
  punctuation_remover_loop acc strings = acc ++ (Str.sub_nonword <$> strings).
Proof.
  revert acc. induction strings as [|s rest IH]; intros acc; simpl.
  - by rewrite app_nil_r.
  - by rewrite IH, <- app_assoc.
Qed.

Lemma punctuation_remover_length (strings : list string) :
  length (punctuation_remover strings) = length strings.
Proof.
  unfold punctuation_remover. rewrite punctuation_remover_loop_spec.
  simpl. by rewrite length_fmap.
Qed.

Lemma drop_or_lemmatize_comprehension (tokens : list string) :
  drop_or_lemmatize lemmatize stop_words tokens
  = lemmatize_nonstop lemmatize stop_words tokens.
Proof.
  unfold lemmatize_nonstop. induction tokens as [|t rest IH]; [done|].
  simpl. rewrite filter_cons. destruct (decide (t ∈ stop_words)) as [Hin|Hin].
  - rewrite decide_False by auto. done.
  - rewrite decide_True by done. simpl. by rewrite IH.
Qed.

Lemma preprocess_text_empty : preprocess_text (PyStr "") = Ok "".
Proof. reflexivity. Qed.

Lemma preprocess_text_nonempty (s : string) :
  s ≠ "" → preprocess_text (PyStr s) = Ok (Str.join " " (surviving_lemmas s)).
Proof.
  intros Hs. unfold preprocess_text. simpl.
  rewrite bool_decide_eq_false_2 by done. reflexivity.
Qed.

Lemma preprocess_text_not_str (v : pyval) :
  isinstance_str v = false → preprocess_text v = Ok "".
Proof.
  intros Hv. unfold preprocess_text. rewrite Hv.
  by rewrite orb_true_r.
Qed.



Lemma lower_keeps_punctuation c :
  Char.is_word c || Char.is_space c = false →
  Char.is_word (Char.lower c) || Char.is_space (Char.lower c) = false.
Proof. destruct c as [[] [] [] [] [] [] [] []]; vm_compute; congruence. Qed.

Lemma punctuation_only_removed (s : string) :
  punctuation_only s → Str.sub_nonword (Str.lower s) = "".
Proof.
  intros H. apply filter_none. unfold Str.lower. rewrite forallb_map.
  revert H. apply forallb_impl. intros c Hc%negb_true_iff.
  by rewrite lower_keeps_punctuation.
Qed.

(** C6. [preprocess_text] returns the empty string for [None], for the empty
    string and for every text made of punctuation only, and it returns a
    string, never an exception, for every input. *)
Theorem preprocess_text_total :
  word_tokenize "" = [] →
  preprocess_text PyNone = Ok ""
  ∧ preprocess_text (PyStr "") = Ok ""
  ∧ (∀ s, punctuation_only s → preprocess_text (PyStr s) = Ok "")
  ∧ (∀ v, ∃ s, preprocess_text v = Ok s).
Proof.
  intros Htok. split_and!; [done..| |].
  - intros s Hs. destruct (decide (s = "")) as [->|Hne]; [done|].
    rewrite preprocess_text_nonempty by done. unfold surviving_lemmas.
    rewrite punctuation_only_removed by done.
    cbv [Str.sub_ws_runs Str.strip Str.lstrip Str.rstrip].
    by rewrite Htok.
  - intros v. destruct (isinstance_str v) eqn:Hv.
    + destruct v as [| | |s|]; try discriminate.
      destruct (decide (s = "")) as [->|Hne]; [by exists ""|].
      eexists. by apply preprocess_text_nonempty.
    + exists "". by apply preprocess_text_not_str.
Qed.

Lemma lemmatize_nonstop_fixed (ts : list string) :
  Forall (λ t, t ∉ stop_words) ts → Forall (λ t, lemmatize t = t) ts →
  lemmatize_nonstop lemmatize stop_words ts = ts.
Proof.
  unfold lemmatize_nonstop. induction 1 as [|t ts Ht Hts IH]; [done|].
  intros [Hl Hls]%Forall_cons. rewrite filter_cons, decide_True by done.
  simpl. rewrite Hl. f_equal. auto.
Qed.

(** C7, as amended. [preprocess_text] is idempotent on every text whose
    surviving lemmas are stable: each is a non-empty lower-case word, is not
    a stop word, is its own lemma, and the tokenizer splits their joined text
    back into them. *)
Theorem preprocess_text_idempotent_on_stable (x : string) :
  stable_lemmas word_tokenize lemmatize stop_words (surviving_lemmas x) = true →
  preprocess_twice x = preprocess_text (PyStr x).
Proof.
  unfold stable_lemmas. intros H.
  repeat (apply andb_true_iff in H as [H ?]).
  repeat match goal with
         | H : bool_decide _ = true |- _ => apply bool_decide_eq_true in H
         end.
  unfold preprocess_twice.
  destruct (decide (x = "")) as [->|Hx]; [done|].
  rewrite preprocess_text_nonempty by done.
  set (ts := surviving_lemmas x) in *. change (Ok (Str.join " " ts) ≫= _)
    with (preprocess_text (PyStr (Str.join " " ts))).
  destruct (decide (ts = [])) as [E|Hts]; [by rewrite E|].
  destruct (join_clean_fixed ts) as (Hl & Hp & Hs & Hw & Hr & Hne); [done..|].
  rewrite preprocess_text_nonempty by done. f_equal. f_equal.
  unfold surviving_lemmas at 1. fold ts.
  rewrite Hl, Hp, Hw. unfold Str.strip. rewrite (lstrip_start _ Hs), Hr.
  match goal with H : word_tokenize _ = ts |- _ => rewrite H end.
  by apply lemmatize_nonstop_fixed.
Qed.

End NormalizerFacts.


(** C6, with the sample collaborators. *)
Lemma preprocess_text_total_witness :
  Sample.preprocess_text PyNone = Ok ""
  ∧ Sample.preprocess_text (PyStr "") = Ok ""
  ∧ (∀ s, punctuation_only s → Sample.preprocess_text (PyStr s) = Ok "")
  ∧ (∀ v, ∃ s, Sample.preprocess_text v = Ok s).
Proof.
  apply (preprocess_text_total
           Sample.word_tokenize Sample.lemmatize Sample.stop_words).
  reflexivity.
Defined.

(** C7 fails as stated: the lemma of "cans" is the stop word "can", which the
    second pass drops. *)
Lemma preprocess_text_not_idempotent :
  Sample.preprocess_text (PyStr "cans") = Ok "can"
  ∧ preprocess_twice Sample.word_tokenize Sample.lemmatize Sample.stop_words "cans"
    = Ok ""
  ∧ ¬ (∀ x, preprocess_twice Sample.word_tokenize Sample.lemmatize
              Sample.stop_words x
            = Sample.preprocess_text (PyStr x)).
Proof.
  split_and!; [by vm_compute..|].
  intros H. specialize (H "cans"). vm_compute in H. discriminate.
Qed.

(** C7 as amended, at a concrete posting. *)
Lemma preprocess_text_idempotent_on_stable_witness :
  preprocess_twice Sample.word_tokenize Sample.lemmatize Sample.stop_words
    "Data Entry jobs, from HOME!"
  = Sample.preprocess_text (PyStr "Data Entry jobs, from HOME!").
Proof.
  apply (preprocess_text_idempotent_on_stable
           Sample.word_tokenize Sample.lemmatize Sample.stop_words).
  vm_compute. reflexivity.
Defined.

(** ** Artifact cache *)

Lemma cached_true label st :
  cached label st = true ↔
  ∃ m v, model_cache st !! label = Some m ∧ vectorizer_cache st !! label = Some v.
Proof.
  unfold cached. rewrite andb_true_iff, !bool_decide_eq_true. split.
  - intros [[m Hm] [v Hv]]. eauto.
  - intros (m & v & Hm & Hv). split; eauto.
Qed.

Lemma cached_false label st :
  cached label st = false →
  model_cache st !! label = None ∨ vectorizer_cache st !! label = None.
Proof.
  intros H. destruct (model_cache st !! label) as [m|] eqn:Hm; [|by left].
  destruct (vectorizer_cache st !! label) as [v|] eqn:Hv; [|by right].
  assert (cached label st = true) by (apply cached_true; eauto). congruence.
Qed.

Lemma in_config_Some label :
  in_config (Some label) = true ↔ ∃ files, dict_get MODEL_CONFIG label = Some files.
Proof. unfold in_config. by rewrite bool_decide_eq_true. Qed.

Lemma app_singleton_neq {A} (l : list A) (x : A) : l ++ [x] ≠ l.
Proof.
  intros H. apply (f_equal length) in H. rewrite length_app in H.
  simpl in H. lia.
Qed.

Lemma app_two_neq {A} (l : list A) (x y : A) : (l ++ [x]) ++ [y] ≠ l.
Proof.
  intros H. apply (f_equal length) in H. rewrite !length_app in H.
  simpl in H. lia.
Qed.

Section ServiceFacts.

Variable word_tokenize : string → list string.
Variable lemmatize : string → string.
Variable stop_words : gset string.
Variable BASE_DIR : string.

Local Abbreviation load := (load_model_and_vectorizer BASE_DIR).
Local Abbreviation path := (asset_path BASE_DIR).
Local Abbreviation predict_fraud :=
  (predict_fraud word_tokenize lemmatize stop_words BASE_DIR).

Lemma load_unknown d model_label st :
  in_config model_label = false →
  load d model_label st
  = (Raise (Exn ValueError (unknown_label_message model_label)), st).
Proof. intros H. unfold load_model_and_vectorizer. by rewrite H. Qed.

Lemma load_hit d label st m v :
  in_config (Some label) = true →
  model_cache st !! label = Some m → vectorizer_cache st !! label = Some v →
  load d (Some label) st = (Ok (m, v), st).
Proof.
  intros Hc Hm Hv. unfold load_model_and_vectorizer. by rewrite Hc, Hm, Hv.
Qed.

Lemma load_miss d label st mf vf :
  dict_get MODEL_CONFIG label = Some (mf, vf) → cached label st = false →
  load d (Some label) st =
    match d (path mf) with
    | LoadRaises cls msg =>
        (Raise (load_handler label cls msg), log_load (path mf) st)
    | Loaded model =>
        match d (path vf) with
        | LoadRaises cls msg =>
            (Raise (load_handler label cls msg),
             log_load (path vf) (log_load (path mf) st))
        | Loaded vectorizer =>
            (Ok (model, vectorizer),
             print ("Loaded model '" +:+ label +:+ "' successfully.")
               (cache_store label model vectorizer
                  (log_load (path vf) (log_load (path mf) st))))
        end
    end.
Proof.
  intros Hcfg Hmiss. unfold load_model_and_vectorizer.
  assert (in_config (Some label) = true) as -> by (apply in_config_Some; eauto).
  cbn [negb].
  destruct (cached_false _ _ Hmiss) as [->| ->];
    [|destruct (model_cache st !! label)]; by rewrite Hcfg.
Qed.

(** What one call of the loader does to the two dictionaries: nothing, or one
    insertion into each under the requested label. *)
Lemma load_caches d model_label st r st' :
  load d model_label st = (r, st') →
  (model_cache st' = model_cache st ∧ vectorizer_cache st' = vectorizer_cache st)
  ∨ (∃ label m v, model_label = Some label ∧ cached label st = false
       ∧ r = Ok (m, v)
       ∧ model_cache st' = <[label := m]> (model_cache st)
       ∧ vectorizer_cache st' = <[label := v]> (vectorizer_cache st)).
Proof.
  destruct (in_config model_label) eqn:Hc.
  2:{ rewrite load_unknown by done. intros [= <- <-]. by left. }
  destruct model_label as [label|]; [|done].
  apply in_config_Some in Hc as Hf. destruct Hf as [[mf vf] Hf].
  destruct (cached label st) eqn:Hhit.
  - apply cached_true in Hhit as (m & v & Hm & Hv).
    rewrite (load_hit _ _ _ m v) by done. intros [= <- <-]. by left.
  - rewrite (load_miss _ _ _ mf vf) by done.
    destruct (d (path mf)) as [m|]; [|intros [= <- <-]; by left].
    destruct (d (path vf)) as [v|]; [|intros [= <- <-]; by left].
    intros [= <- <-]. right. by exists label, m, v.
Qed.

(** A call that returns a pair without touching the store found the label in
    both dictionaries. *)
Lemma load_without_io d model_label st m v st' :
  load d model_label st = (Ok (m, v), st') →
  loaded_paths st' = loaded_paths st →
  st' = st ∧ ∃ label, model_label = Some label
    ∧ model_cache st !! label = Some m ∧ vectorizer_cache st !! label = Some v.
Proof.
  destruct (in_config model_label) eqn:Hc.
  2:{ by rewrite load_unknown. }
  destruct model_label as [label|]; [|done].
  apply in_config_Some in Hc as Hf. destruct Hf as [[mf vf] Hf].
  destruct (cached label st) eqn:Hhit.
  - apply cached_true in Hhit as (m' & v' & Hm & Hv).
    rewrite (load_hit _ _ _ m' v') by done. intros [= <- <- <-] _.
    split; [done|]. by exists label.
  - rewrite (load_miss _ _ _ mf vf) by done.
    destruct (d (path mf)) as [m'|]; [|done].
    destruct (d (path vf)) as [v'|]; [|done].
    intros [= <- <- <-]. simpl. intros H. by apply app_two_neq in H.
Qed.

(** An entry that sits in both dictionaries stays there, unchanged. *)
Lemma step_keeps_entry label m v st st' :
  step BASE_DIR st st' →
  model_cache st !! label = Some m → vectorizer_cache st !! label = Some v →
  model_cache st' !! label = Some m ∧ vectorizer_cache st' !! label = Some v.
Proof.
  intros (d & ml & r & Hload) Hm Hv.
  apply load_caches in Hload as [[-> ->]|(l & m' & v' & -> & Hmiss & -> & -> & ->)];
    [done|].
  assert (l ≠ label) as Hne.
  { intros ->. assert (cached label st = true) by (apply cached_true; eauto).
    congruence. }
  by rewrite !lookup_insert_ne.
Qed.

Lemma rtc_step_keeps_entry label m v st st' :
  rtc (step BASE_DIR) st st' →
  model_cache st !! label = Some m → vectorizer_cache st !! label = Some v →
  model_cache st' !! label = Some m ∧ vectorizer_cache st' !! label = Some v.
Proof.
  induction 1 as [|st st1 st2 Hstep _ IH]; [done|]. intros Hm Hv.
  destruct (step_keeps_entry _ _ _ _ _ Hstep Hm Hv). by apply IH.
Qed.

(** C3. Resolving an identifier that is not a key of the registry raises the
    unknown-label [ValueError], whose text lists the registry keys; the state
    comes back as it was: nothing is loaded from the store and both caches are
    unchanged. *)
Theorem unknown_model_rejected d model_label st :
  in_config model_label = false →
  load d model_label st
  = (Raise (Exn ValueError (unknown_label_message model_label)), st)
  ∧ unknown_label_message model_label
    = "Unknown model label: " +:+ format_label model_label
      +:+ ". Available models: ['nb_bow', 'nb_bow_res', 'nb_tfidf', "
      +:+ "'nb_tfidf_res', 'lr_bow', 'lr_bow_res', 'lr_tfidf', 'lr_tfidf_res']".
Proof. intros H. split; [by apply load_unknown|reflexivity]. Qed.

Lemma load_ok_registered d model_label st m v st1 :
  load d model_label st = (Ok (m, v), st1) →
  ∃ label files, model_label = Some label
    ∧ dict_get MODEL_CONFIG label = Some files.
Proof.
  destruct (in_config model_label) eqn:Hc; [|by rewrite load_unknown].
  destruct model_label as [label|]; [|done].
  apply in_config_Some in Hc as [files Hf]. eauto.
Qed.

(** C4. After a successful resolution of an identifier the pair sits in both
    caches under that identifier, and every later resolution of it, whatever
    was resolved in between and whatever the store holds by then, returns
    that same pair and leaves the state, load log included, untouched. *)
Theorem resolution_memoized d label st m v st1 :
  load d (Some label) st = (Ok (m, v), st1) →
  model_cache st1 !! label = Some m
  ∧ vectorizer_cache st1 !! label = Some v
  ∧ ∀ st2, rtc (step BASE_DIR) st1 st2 →
      ∀ d', load d' (Some label) st2 = (Ok (m, v), st2).
Proof.
  intros Hload.
  destruct (load_ok_registered _ _ _ _ _ _ Hload) as (l & [mf vf] & [= <-] & Hf).
  assert (model_cache st1 !! label = Some m
          ∧ vectorizer_cache st1 !! label = Some v) as [Hm Hv].
  { destruct (cached label st) eqn:Hhit.
    - apply cached_true in Hhit as (m' & v' & Hm & Hv).
      rewrite (load_hit _ _ _ m' v') in Hload
        by (try apply in_config_Some; eauto).
      by injection Hload as <- <- <-.
    - rewrite (load_miss _ _ _ mf vf) in Hload by done.
      destruct (d (path mf)) as [m'|]; [|done].
      destruct (d (path vf)) as [v'|]; [|done].
      injection Hload as <- <- <-. simpl. by rewrite !lookup_insert_eq. }
  split_and!; [done..|]. intros st2 Hreach d'.
  destruct (rtc_step_keeps_entry _ _ _ _ _ Hreach Hm Hv).
  apply load_hit; [apply in_config_Some; eauto|done..].
Qed.

(** C5, as amended. On a miss for a registered identifier, when loading
    either file raises, the loader raises too: a [FileNotFoundError] comes
    back as a [FileNotFoundError] whose text names the identifier and carries
    the cause, any other exception passes as it is.  Both caches are as
    before, the identifier is still a miss, and a later resolution goes to the
    store again. *)
Theorem failed_load_leaves_cache d label st mf vf :
  dict_get MODEL_CONFIG label = Some (mf, vf) →
  cached label st = false →
  (∃ cls msg, d (path mf) = LoadRaises cls msg)
  ∨ (∃ cls msg, d (path vf) = LoadRaises cls msg) →
  ∃ cls msg st',
    load d (Some label) st = (Raise (load_handler label cls msg), st')
    ∧ (d (path mf) = LoadRaises cls msg ∨ d (path vf) = LoadRaises cls msg)
    ∧ (cls = FileNotFoundError →
       load_handler label cls msg
       = Exn FileNotFoundError
           ("Model assets not found for '" +:+ label +:+ "': " +:+ msg))
    ∧ (cls ≠ FileNotFoundError → load_handler label cls msg = Exn cls msg)
    ∧ model_cache st' = model_cache st
    ∧ vectorizer_cache st' = vectorizer_cache st
    ∧ cached label st' = false
    ∧ ∀ d2 m v, d2 (path mf) = Loaded m → d2 (path vf) = Loaded v →
        ∃ st'', load d2 (Some label) st' = (Ok (m, v), st'')
          ∧ loaded_paths st'' = loaded_paths st' ++ [path mf; path vf].
Proof.
  intros Hf Hmiss Hfail.
  assert (∀ cls msg,
    (cls = FileNotFoundError →
       load_handler label cls msg
       = Exn FileNotFoundError
           ("Model assets not found for '" +:+ label +:+ "': " +:+ msg))
    ∧ (cls ≠ FileNotFoundError → load_handler label cls msg = Exn cls msg))
    as Hh.
  { intros cls msg. split; [by intros ->|]. by destruct cls. }
  assert (∀ st', model_cache st' = model_cache st →
    vectorizer_cache st' = vectorizer_cache st →
    cached label st' = false
    ∧ ∀ d2 m v, d2 (path mf) = Loaded m → d2 (path vf) = Loaded v →
        ∃ st'', load d2 (Some label) st' = (Ok (m, v), st'')
          ∧ loaded_paths st'' = loaded_paths st' ++ [path mf; path vf]) as Hlater.
  { intros st' Hm Hv.
    assert (cached label st' = false) as Hmiss'.
    { unfold cached in *. by rewrite Hm, Hv. }
    split; [done|]. intros d2 m v Hd2m Hd2v.
    rewrite (load_miss _ _ _ mf vf) by done. rewrite Hd2m, Hd2v.
    eexists. split; [done|]. simpl. by rewrite <- app_assoc. }
  rewrite (load_miss _ _ _ mf vf) by done.
  destruct (d (path mf)) as [m|cls msg] eqn:Hdm.
  - destruct Hfail as [(? & ? & ?)|(cls & msg & Hdv)]; [done|].
    rewrite Hdv. exists cls, msg. eexists. split; [done|].
    destruct (Hh cls msg). destruct (Hlater (log_load (path vf)
      (log_load (path mf) st))); [done..|]. split_and!; auto.
  - exists cls, msg. eexists. split; [done|].
    destruct (Hh cls msg). destruct (Hlater (log_load (path mf) st)); [done..|].
    split_and!; auto.
Qed.

Lemma step_keeps_key_sets st st' :
  step BASE_DIR st st' →
  dom (model_cache st) = dom (vectorizer_cache st) →
  dom (model_cache st') = dom (vectorizer_cache st').
Proof.
  intros (d & ml & r & Hload) Hdom.
  apply load_caches in Hload as [[-> ->]|(l & m & v & _ & _ & _ & -> & ->)];
    [done|].
  by rewrite !dom_insert_L, Hdom.
Qed.

(** C9. In every state the process can reach, the two caches have the same
    keys; one call of the loader leaves both as they are or inserts the
    loaded pair into both under the requested identifier; and a call that
    returns a pair without going to the store found the identifier in both. *)
Theorem cache_keys_agree st :
  reachable BASE_DIR st →
  dom (model_cache st) = dom (vectorizer_cache st)
  ∧ (∀ d model_label r st', load d model_label st = (r, st') →
       (model_cache st' = model_cache st
        ∧ vectorizer_cache st' = vectorizer_cache st)
       ∨ (∃ label m v, model_label = Some label ∧ r = Ok (m, v)
            ∧ model_cache st' = <[label := m]> (model_cache st)
            ∧ vectorizer_cache st' = <[label := v]> (vectorizer_cache st)))
  ∧ (∀ d model_label m v st', load d model_label st = (Ok (m, v), st') →
       loaded_paths st' = loaded_paths st →
       ∃ label, model_label = Some label
         ∧ label ∈ dom (model_cache st) ∧ label ∈ dom (vectorizer_cache st)).
Proof.
  intros Hreach. split_and!.
  - unfold reachable in Hreach. revert st Hreach.
    apply (rtc_ind_r (λ st, dom (model_cache st) = dom (vectorizer_cache st)));
      [done|].
    intros st1 st2 _ Hstep IH. by apply (step_keeps_key_sets st1).
  - intros d ml r st' Hload.
    apply load_caches in Hload as [?|(l & m & v & ? & _ & ? & ? & ?)];
      [by left|right; by exists l, m, v].
  - intros d ml m v st' Hload Hio.
    destruct (load_without_io _ _ _ _ _ _ Hload Hio) as (_ & l & -> & Hm & Hv).
    exists l. split; [done|]. split; apply elem_of_dom; eauto.
Qed.

Lemma bind_ok {A B} (m : outcome A) (k : A → outcome B) (b : B) :
  m ≫= k = Ok b → ∃ a, m = Ok a ∧ k a = Ok b.
Proof. destruct m as [a|e]; [|done]. intros H. by exists a. Qed.

(** C2, as amended. A response of [predict_fraud] is built from the loaded
    pair: its code is what the classifier's [predict] returns for the
    features of the normalized text, its confidence is the entry of the
    classifier's probability row at that code, its label is
    "Fraudulent (Fake)" for code 1 and "Non-Fraudulent (Real)" for any other
    code, and it carries the entries 0 and 1 of the row, the lengths of the
    raw and of the normalized text and the requested, registered, model
    label.  The code is the index of the larger probability when the
    classifier's [predict] is. *)
Theorem predict_fraud_response d data st resp st' :
  predict_fraud d data st = (Ok resp, st') →
  ∃ transform predict predict_proba cleaned,
    load d (model_label data) st
    = (Ok (Classifier predict predict_proba, Vectorizer transform), st')
    ∧ preprocess_text word_tokenize lemmatize stop_words
        (PyStr (job_description data)) = Ok cleaned
    ∧ prediction_code resp = predict (transform cleaned)
    ∧ getitem (predict_proba (transform cleaned)) (prediction_code resp)
      = Ok (confidence_score resp)
    ∧ prediction_label resp
      = (if prediction_code resp =? 1 then "Fraudulent (Fake)"
         else "Non-Fraudulent (Real)")
    ∧ getitem (predict_proba (transform cleaned)) 0
      = Ok (probabilities_non_fraudulent resp)
    ∧ getitem (predict_proba (transform cleaned)) 1
      = Ok (probabilities_fraudulent resp)
    ∧ input_text_length resp = Str.len (job_description data)
    ∧ cleaned_text_length resp = Str.len cleaned
    ∧ model_used resp = model_label data
    ∧ in_config (model_label data) = true
    ∧ (predict (transform cleaned)
       = index_of_larger (probabilities_non_fraudulent resp)
           (probabilities_fraudulent resp) →
       prediction_code resp
       = index_of_larger (probabilities_non_fraudulent resp)
           (probabilities_fraudulent resp)).
Proof.
  unfold predict_fraud.
  destruct (load d (model_label data) st) as [[[model vectorizer]|e] st1] eqn:Hload;
    [|done].
  intros [= Hresp <-].
  apply bind_ok in Hresp as (cleaned & Hclean & Hresp).
  apply bind_ok in Hresp as (x & Hx & Hresp).
  apply bind_ok in Hresp as (code & Hcode & Hresp).
  apply bind_ok in Hresp as (probs & Hprobs & Hresp).
  apply bind_ok in Hresp as (conf & Hconf & Hresp).
  apply bind_ok in Hresp as (p0 & Hp0 & Hresp).
  apply bind_ok in Hresp as (p1 & Hp1 & Hresp).
  injection Hresp as <-.
  destruct vectorizer as [transform|]; [|done].
  destruct model as [|predict predict_proba]; [done|].
  injection Hx as <-. injection Hcode as <-. injection Hprobs as <-.
  exists transform, predict, predict_proba, cleaned. simpl.
  split_and!; try done.
  destruct (in_config (model_label data)) eqn:Hc; [done|].
  by rewrite load_unknown in Hload.
Qed.

(** C10. The default ["nb_bow"] is taken only when the body has no
    [model_label] field.  A body whose [model_label] is null validates to a
    request without a label; the loader does not know it, and the route
    answers with status 400 and the unknown-label text, the state unchanged. *)
Theorem null_label_not_defaulted d jd st :
  validate {| body_job_description := Text jd; body_model_label := Absent |}
  = Some {| job_description := jd; model_label := Some "nb_bow" |}
  ∧ validate {| body_job_description := Text jd; body_model_label := Null |}
    = Some {| job_description := jd; model_label := None |}
  ∧ post_predict word_tokenize lemmatize stop_words BASE_DIR d
      {| body_job_description := Text jd; body_model_label := Null |} st
    = (Raise (HTTPException 400 (unknown_label_message None)), st)
  ∧ unknown_label_message None
    = "Unknown model label: None. Available models: ['nb_bow', 'nb_bow_res', "
      +:+ "'nb_tfidf', 'nb_tfidf_res', 'lr_bow', 'lr_bow_res', 'lr_tfidf', "
      +:+ "'lr_tfidf_res']".
Proof. split_and!; reflexivity. Qed.

End ServiceFacts.

(** ** The properties at concrete inputs *)

(** C2 fails as stated: with the odd classifier the request succeeds with
    code 1 although the probability of class 0 is the larger one. *)
Lemma predict_fraud_code_not_argmax :
  ∃ resp st',
    predict_fraud Sample.word_tokenize Sample.lemmatize Sample.stop_words
      SampleDisk.base_dir SampleDisk.odd SampleDisk.request initial_state
    = (Ok resp, st')
    ∧ prediction_code resp = 1
    ∧ probabilities_non_fraudulent resp = (9 # 10)%Q
    ∧ probabilities_fraudulent resp = (1 # 10)%Q
    ∧ index_of_larger (probabilities_non_fraudulent resp)
        (probabilities_fraudulent resp) = 0
    ∧ prediction_code resp
      ≠ index_of_larger (probabilities_non_fraudulent resp)
          (probabilities_fraudulent resp).
Proof. do 2 eexists. split; [by vm_compute|]. by vm_compute. Qed.

(** C2 as amended, for a request served by the sample classifier. *)
Lemma predict_fraud_response_witness :
  ∃ transform predict predict_proba cleaned,
    load_model_and_vectorizer SampleDisk.base_dir SampleDisk.good
      (model_label SampleDisk.request) initial_state
    = (Ok (Classifier predict predict_proba, Vectorizer transform),
       SampleDisk.after_nb_bow)
    ∧ Sample.preprocess_text (PyStr (job_description SampleDisk.request))
      = Ok cleaned
    ∧ prediction_code SampleDisk.response = predict (transform cleaned)
    ∧ getitem (predict_proba (transform cleaned))
        (prediction_code SampleDisk.response)
      = Ok (confidence_score SampleDisk.response)
    ∧ prediction_label SampleDisk.response
      = (if prediction_code SampleDisk.response =? 1 then "Fraudulent (Fake)"
         else "Non-Fraudulent (Real)")
    ∧ getitem (predict_proba (transform cleaned)) 0
      = Ok (probabilities_non_fraudulent SampleDisk.response)
    ∧ getitem (predict_proba (transform cleaned)) 1
      = Ok (probabilities_fraudulent SampleDisk.response)
    ∧ input_text_length SampleDisk.response
      = Str.len (job_description SampleDisk.request)
    ∧ cleaned_text_length SampleDisk.response = Str.len cleaned
    ∧ model_used SampleDisk.response = model_label SampleDisk.request
    ∧ in_config (model_label SampleDisk.request) = true
    ∧ (predict (transform cleaned)
       = index_of_larger (probabilities_non_fraudulent SampleDisk.response)
           (probabilities_fraudulent SampleDisk.response) →
       prediction_code SampleDisk.response
       = index_of_larger (probabilities_non_fraudulent SampleDisk.response)
           (probabilities_fraudulent SampleDisk.response)).
Proof.
  apply (predict_fraud_response
           Sample.word_tokenize Sample.lemmatize Sample.stop_words
           SampleDisk.base_dir SampleDisk.good SampleDisk.request
           initial_state SampleDisk.response SampleDisk.after_nb_bow).
  vm_compute. reflexivity.
Defined.

(** C3, for a label that is not registered. *)
Lemma unknown_model_rejected_witness :
  load_model_and_vectorizer SampleDisk.base_dir SampleDisk.good
    (Some "made_up_model") SampleDisk.after_nb_bow
  = (Raise (Exn ValueError (unknown_label_message (Some "made_up_model"))),
     SampleDisk.after_nb_bow).
Proof.
  apply (unknown_model_rejected SampleDisk.base_dir SampleDisk.good
           (Some "made_up_model") SampleDisk.after_nb_bow).
  reflexivity.
Defined.

(** C4, for ["nb_bow"]: once loaded, it is served from the cache even when
    the store has lost every file. *)
Lemma resolution_memoized_witness :
  load_model_and_vectorizer SampleDisk.base_dir SampleDisk.empty
    (Some "nb_bow") SampleDisk.after_nb_bow
  = (Ok (SampleDisk.nb_model_bow, SampleDisk.bow_vectorizer),
     SampleDisk.after_nb_bow).
Proof.
  apply (resolution_memoized SampleDisk.base_dir SampleDisk.good "nb_bow"
           initial_state SampleDisk.nb_model_bow SampleDisk.bow_vectorizer
           SampleDisk.after_nb_bow).
  - reflexivity.
  - apply rtc_refl.
Defined.

(** C5 fails as stated: a model file that does not unpickle makes the loader
    raise the unpickling error itself, not the [FileNotFoundError] it raises
    for missing assets. *)
Lemma corrupt_artifact_not_wrapped :
  dict_get MODEL_CONFIG "nb_bow"
  = Some ("nb_model_bow.joblib", "bow_vectorizer.joblib")
  ∧ cached "nb_bow" initial_state = false
  ∧ SampleDisk.corrupt (asset_path SampleDisk.base_dir "nb_model_bow.joblib")
    = LoadRaises UnpicklingError "invalid load key, 'x'."
  ∧ (load_model_and_vectorizer SampleDisk.base_dir SampleDisk.corrupt
       (Some "nb_bow") initial_state).1
    = Raise (Exn UnpicklingError "invalid load key, 'x'.")
  ∧ ¬ ∃ msg,
      (load_model_and_vectorizer SampleDisk.base_dir SampleDisk.corrupt
         (Some "nb_bow") initial_state).1
      = Raise (Exn FileNotFoundError msg).
Proof.
  split_and!; [by vm_compute..|]. intros [msg H]. vm_compute in H. discriminate.
Qed.

(** C5 as amended, for ["nb_bow"] on the empty store. *)
Lemma failed_load_leaves_cache_witness :
  ∃ cls msg st',
    load_model_and_vectorizer SampleDisk.base_dir SampleDisk.empty
      (Some "nb_bow") initial_state
    = (Raise (load_handler "nb_bow" cls msg), st')
    ∧ model_cache st' = ∅ ∧ vectorizer_cache st' = ∅.
Proof.
  destruct (failed_load_leaves_cache SampleDisk.base_dir SampleDisk.empty
              "nb_bow" initial_state "nb_model_bow.joblib"
              "bow_vectorizer.joblib")
    as (cls & msg & st' & Hload & _ & _ & _ & Hm & Hv & _).
  - reflexivity.
  - reflexivity.
  - left. do 2 eexists. reflexivity.
  - exists cls, msg, st'. auto.
Defined.

(** C9, in the state after the first request for ["nb_bow"]. *)
Lemma cache_keys_agree_witness :
  dom (model_cache SampleDisk.after_nb_bow)
  = dom (vectorizer_cache SampleDisk.after_nb_bow).
Proof.
  apply (cache_keys_agree SampleDisk.base_dir SampleDisk.after_nb_bow).
  apply rtc_once. exists SampleDisk.good, (Some "nb_bow"). eexists.
  reflexivity.
Defined.

(** ** The cleaning phase *)

Lemma lower_idem_char c : Char.lower (Char.lower c) = Char.lower c.
Proof. destruct c as [[] [] [] [] [] [] [] []]; reflexivity. Qed.

Lemma lower_tidy_or_space c :
  Char.is_word (Char.lower c) || Char.is_space (Char.lower c) = true →
  Char.is_space (Char.lower c) || tidy_char (Char.lower c) = true.
Proof. destruct c as [[] [] [] [] [] [] [] []]; vm_compute; congruence. Qed.

Lemma tidy_char_lower c : tidy_char c = true → Char.lower c = c.
Proof. destruct c as [[] [] [] [] [] [] [] []]; vm_compute; congruence. Qed.

Lemma tidy_char_kept c :
  tidy_char c = true → Char.is_word c || Char.is_space c = true.
Proof. destruct c as [[] [] [] [] [] [] [] []]; vm_compute; congruence. Qed.

Lemma space_is_space c : c = " "%char → Char.is_space c = true.
Proof. by intros ->. Qed.

Lemma lower_idem s : Str.lower (Str.lower s) = Str.lower s.
Proof.
  unfold Str.lower. induction s as [|c s IH]; [done|].
  simpl. by rewrite lower_idem_char, IH.
Qed.

Lemma forallb_filter p q (s : string) :
  Str.forallb (λ c, negb (q c) || p c) s = true →
  Str.forallb p (Str.filter q s) = true.
Proof.
  induction s as [|c s IH]; [done|]. simpl.
  intros [Hc Hs]%andb_true_iff. destruct (q c); simpl; auto.
  simpl in Hc. rewrite Hc. auto.
Qed.

Lemma sub_nonword_chars s :
  Str.forallb (λ c, Char.is_word c || Char.is_space c) (Str.sub_nonword s) = true.
Proof.
  apply forallb_filter. induction s as [|c s IH]; [done|]. simpl.
  rewrite IH. by destruct (Char.is_word c || Char.is_space c).
Qed.

Lemma sub_nonword_idem s : Str.sub_nonword (Str.sub_nonword s) = Str.sub_nonword s.
Proof. apply filter_all, sub_nonword_chars. Qed.

(** After the first two steps a character is white space or tidy. *)
Lemma lowered_kept_chars s :
  Str.forallb (λ c, Char.is_space c || tidy_char c)
    (Str.sub_nonword (Str.lower s)) = true.
Proof.
  unfold Str.sub_nonword, Str.lower. induction s as [|c s IH]; [done|]. simpl.
  destruct (Char.is_word (Char.lower c) || Char.is_space (Char.lower c)) eqn:E;
    [|done].
  simpl. by rewrite lower_tidy_or_space, IH.
Qed.

Lemma sub_ws_runs_chars b s :
  Str.forallb (λ c, Char.is_space c || tidy_char c) s = true →
  Str.forallb tidy_char (Str.sub_ws_runs b s) = true.
Proof.
  revert b. induction s as [|c s IH]; [done|]. intros b. simpl.
  intros [Hc Hs]%andb_true_iff. destruct (Char.is_space c); simpl in *.
  - destruct b; simpl; auto.
  - rewrite Hc. simpl. auto.
Qed.

Lemma lstrip_forallb p s :
  Str.forallb p s = true → Str.forallb p (Str.lstrip s) = true.
Proof.
  induction s as [|c s IH]; [done|]. simpl.
  intros [Hc Hs]%andb_true_iff. destruct (Char.is_space c); [auto|].
  simpl. by rewrite Hc, Hs.
Qed.

Lemma rstrip_forallb p s :
  Str.forallb p s = true → Str.forallb p (Str.rstrip s) = true.
Proof.
  induction s as [|c s IH]; [done|]. simpl.
  intros [Hc Hs]%andb_true_iff. specialize (IH Hs).
  destruct (Str.rstrip s) as [|c' r].
  - destruct (Char.is_space c); [done|]. simpl. by rewrite Hc.
  - simpl in *. by rewrite Hc, IH.
Qed.

Lemma rstrip_cons c s :
  Str.rstrip (String c s)
  = match Str.rstrip s with
    | EmptyString => if Char.is_space c then EmptyString else String c EmptyString
    | r => String c r
    end.
Proof. reflexivity. Qed.

Lemma single_spaces_cons b c s :
  single_spaces b (String c s)
  = if Char.is_space c
    then bool_decide (c = " "%char) && negb b && single_spaces true s
    else single_spaces false s.
Proof. reflexivity. Qed.

(** What is left of collapsed text after trimming its end has single spaces
    only. *)
Lemma sub_ws_runs_single b s :
  Str.rstrip (Str.sub_ws_runs b s) ≠ "" →
  single_spaces b (Str.rstrip (Str.sub_ws_runs b s)) = true.
Proof.
  revert b. induction s as [|c s IH]; [done|]. intros b.
  cbn [Str.sub_ws_runs]. destruct (Char.is_space c) eqn:Hc.
  - destruct b; [apply IH|]. rewrite rstrip_cons.
    destruct (Str.rstrip (Str.sub_ws_runs true s)) as [|c' r] eqn:Hr; [done|].
    intros _. rewrite single_spaces_cons.
    change (Char.is_space " ") with true. cbv iota.
    rewrite bool_decide_eq_true_2 by done. cbn [andb negb].
    rewrite <- Hr. apply IH. by rewrite Hr.
  - rewrite rstrip_cons.
    destruct (Str.rstrip (Str.sub_ws_runs false s)) as [|c' r] eqn:Hr.
    + rewrite Hc. intros _. by rewrite single_spaces_cons, Hc.
    + intros _. rewrite single_spaces_cons, Hc, <- Hr. apply IH. by rewrite Hr.
Qed.

Lemma lstrip_empty_or_starts s :
  Str.lstrip s = "" ∨ starts_nonspace (Str.lstrip s).
Proof.
  induction s as [|c s IH]; [by left|]. simpl.
  destruct (Char.is_space c) eqn:Hc; [done|]. by right.
Qed.

Lemma rstrip_starts s : starts_nonspace s → starts_nonspace (Str.rstrip s).
Proof.
  destruct s as [|c s]; [done|]. simpl. intros Hc.
  destruct (Str.rstrip s); [by rewrite Hc|done].
Qed.

Lemma rstrip_idem s : Str.rstrip (Str.rstrip s) = Str.rstrip s.
Proof.
  induction s as [|c s IH]; [done|]. simpl.
  destruct (Str.rstrip s) as [|c' r] eqn:Hr.
  - destruct (Char.is_space c) eqn:Hc; [done|]. simpl. by rewrite Hc.
  - change (Str.rstrip (String c (String c' r))) with
      (match Str.rstrip (String c' r) with
       | EmptyString => if Char.is_space c then EmptyString else String c EmptyString
       | r' => String c r'
       end).
    by rewrite IH.
Qed.

Lemma strip_idem s : Str.strip (Str.strip s) = Str.strip s.
Proof.
  unfold Str.strip. destruct (lstrip_empty_or_starts s) as [->|Hs]; [done|].
  rewrite (lstrip_start (Str.rstrip (Str.lstrip s))) by by apply rstrip_starts.
  apply rstrip_idem.
Qed.

Lemma lstrip_sub_ws_runs b s :
  Str.lstrip (Str.sub_ws_runs b s) = Str.sub_ws_runs true s.
Proof.
  revert b. induction s as [|c s IH]; [done|]. intros b.
  cbn [Str.sub_ws_runs]. destruct (Char.is_space c) eqn:Hc.
  - destruct b; [apply IH|]. cbn [Str.lstrip].
    change (Char.is_space " ") with true. cbv iota. apply IH.
  - cbn [Str.lstrip]. by rewrite Hc.
Qed.

Lemma forallb_tidy_lower t :
  Str.forallb tidy_char t = true → Str.lower t = t.
Proof.
  unfold Str.lower. induction t as [|c t IH]; [done|]. simpl.
  intros [Hc Ht]%andb_true_iff. by rewrite tidy_char_lower, IH.
Qed.

Lemma forallb_tidy_sub_nonword t :
  Str.forallb tidy_char t = true → Str.sub_nonword t = t.
Proof.
  intros H. apply filter_all. revert H. apply forallb_impl, tidy_char_kept.
Qed.

Lemma single_spaces_sub_ws_runs b t :
  single_spaces b t = true → Str.sub_ws_runs b t = t.
Proof.
  revert b. induction t as [|c t IH]; [done|]. intros b.
  rewrite single_spaces_cons. cbn [Str.sub_ws_runs].
  destruct (Char.is_space c) eqn:Hc.
  - intros [[Hsp Hb%negb_true_iff]%andb_true_iff Ht]%andb_true_iff.
    apply bool_decide_eq_true in Hsp. subst. by rewrite IH.
  - intros Ht. by rewrite IH.
Qed.

Lemma single_spaces_rstrip b t :
  single_spaces b t = true → Str.rstrip t = t.
Proof.
  revert b. induction t as [|c t IH]; [done|]. intros b.
  rewrite single_spaces_cons, rstrip_cons.
  destruct (Char.is_space c) eqn:Hc.
  - intros [_ Ht]%andb_true_iff. rewrite (IH _ Ht). by destruct t.
  - intros Ht. rewrite (IH _ Ht). by destruct t.
Qed.

Lemma single_spaces_starts t :
  single_spaces true t = true → starts_nonspace t.
Proof.
  destruct t as [|c t]; [done|]. rewrite single_spaces_cons. simpl.
  destruct (Char.is_space c); [|done].
  by rewrite andb_false_r.
Qed.

(** Tidy text passes the cleaning phase unchanged. *)
Lemma tidy_fixed t : tidy t = true → clean_text t = t.
Proof.
  unfold tidy, clean_text. intros [Hc Hs]%andb_true_iff.
  rewrite (forallb_tidy_lower _ Hc), (forallb_tidy_sub_nonword _ Hc).
  apply orb_true_iff in Hs as [->%bool_decide_eq_true|Hs]; [done|].
  pose proof (single_spaces_starts _ Hs) as Hstart.
  rewrite <- (sub_ws_runs_start true) by done.
  rewrite (single_spaces_sub_ws_runs _ _ Hs). unfold Str.strip.
  rewrite (lstrip_start _ Hstart). by apply (single_spaces_rstrip true).
Qed.

(** The cleaning phase produces tidy text. *)
Lemma clean_text_tidy s : tidy (clean_text s) = true.
Proof.
  unfold tidy, clean_text, Str.strip. apply andb_true_iff. split.
  - apply rstrip_forallb, lstrip_forallb, sub_ws_runs_chars, lowered_kept_chars.
  - rewrite lstrip_sub_ws_runs. apply orb_true_iff.
    destruct (decide (Str.rstrip (Str.sub_ws_runs true
                (Str.sub_nonword (Str.lower s))) = "")) as [E|E].
    + left. by apply bool_decide_eq_true.
    + right. by apply sub_ws_runs_single.
Qed.

Lemma lower_empty s : Str.lower s = "" → s = "".
Proof. by destruct s. Qed.

Section CleaningFacts.

Variable word_tokenize : string → list string.
Variable lemmatize : string → string.
Variable stop_words : gset string.

Local Abbreviation preprocess_text := (preprocess_text word_tokenize lemmatize stop_words).

Lemma preprocess_text_clean_text (s : string) :
  s ≠ "" →
  preprocess_text (PyStr s)
  = Ok (Str.join " "
          (lemmatize_nonstop lemmatize stop_words (word_tokenize (clean_text s)))).
Proof. apply preprocess_text_nonempty. Qed.

(** X1. [punctuation_remover] cleans its strings one by one, keeping their
    number and order; what it returns has no character outside [\w] and [\s],
    and running it again changes nothing. *)
Theorem punctuation_remover_elementwise (strings : list string) :
  punctuation_remover strings = Str.sub_nonword <$> strings
  ∧ length (punctuation_remover strings) = length strings
  ∧ Forall (λ s, Str.forallb (λ c, Char.is_word c || Char.is_space c) s = true)
      (punctuation_remover strings)
  ∧ punctuation_remover (punctuation_remover strings)
    = punctuation_remover strings.
Proof.
  assert (punctuation_remover strings = Str.sub_nonword <$> strings) as E.
  { unfold punctuation_remover. by rewrite punctuation_remover_loop_spec. }
  split_and!; [done|apply punctuation_remover_length| |].
  - rewrite E. apply Forall_fmap, Forall_forall. intros s _.
    apply sub_nonword_chars.
  - unfold punctuation_remover. rewrite !punctuation_remover_loop_spec. simpl.
    rewrite <- list_fmap_compose. apply list_fmap_ext. intros _ s _.
    apply sub_nonword_idem.
Qed.

(** X2. The cleaning phase of [preprocess_text] (lower-casing, punctuation
    removal, whitespace collapsing, trimming) is idempotent. *)
Theorem clean_text_idempotent (s : string) :
  clean_text (clean_text s) = clean_text s.
Proof. apply tidy_fixed, clean_text_tidy. Qed.


(** X4. Normalizing the cleaned form of a text gives what normalizing the
    text gives, provided the tokenizer finds no token in the empty text. *)
Theorem preprocess_text_of_cleaned (s : string) :
  word_tokenize "" = [] →
  preprocess_text (PyStr (clean_text s)) = preprocess_text (PyStr s).
Proof.
  intros Htok. destruct (decide (s = "")) as [->|Hs]; [done|].
  rewrite (preprocess_text_clean_text s) by done.
  destruct (decide (clean_text s = "")) as [E|E].
  - rewrite E, Htok. reflexivity.
  - rewrite preprocess_text_clean_text by done.
    by rewrite (tidy_fixed _ (clean_text_tidy s)).
Qed.

(** X5. [preprocess_text] does not see letter case: a text and its lower-case
    form are normalized alike. *)
Theorem preprocess_text_ignores_case (s : string) :
  preprocess_text (PyStr (Str.lower s)) = preprocess_text (PyStr s).
Proof.
  destruct (decide (s = "")) as [->|Hs]; [done|].
  rewrite !preprocess_text_clean_text; [|done|by intros ?%lower_empty].
  unfold clean_text. by rewrite lower_idem.
Qed.

End CleaningFacts.


(** X4, for a posting. *)
Lemma preprocess_text_of_cleaned_witness :
  Sample.preprocess_text (PyStr (clean_text "  Work   from HOME -- earn $$$ "))
  = Sample.preprocess_text (PyStr "  Work   from HOME -- earn $$$ ").
Proof.
  apply (preprocess_text_of_cleaned
           Sample.word_tokenize Sample.lemmatize Sample.stop_words).
  reflexivity.
Defined.

(** ** The CORS origins *)

Lemma split_on_length sep s : length (split_on sep s) = S (count_char sep s).
Proof.
  induction s as [|c s IH]; [done|]. simpl.
  destruct (bool_decide (c = sep)); simpl; [by rewrite IH|].
  destruct (split_on sep s); simpl in *; lia.
Qed.

Lemma split_on_pieces sep s :
  Forall (λ p, Str.forallb (λ c, negb (bool_decide (c = sep))) p = true)
    (split_on sep s).
Proof.
  induction s as [|c s IH]; [by repeat constructor|]. simpl.
  destruct (bool_decide (c = sep)) eqn:Hc; [by constructor|].
  destruct (split_on sep s) as [|p rest].
  - repeat constructor. simpl. by rewrite Hc.
  - apply Forall_cons in IH as [Hp Hrest]. constructor; [|done].
    simpl. by rewrite Hc, Hp.
Qed.

Lemma join_cons_char sep c p rest :
  Str.join sep (String c p :: rest) = String c (Str.join sep (p :: rest)).
Proof. by destruct rest. Qed.

Lemma split_on_cons sep c s :
  split_on sep (String c s)
  = if bool_decide (c = sep) then "" :: split_on sep s
    else match split_on sep s with
         | piece :: rest => String c piece :: rest
         | [] => [String c ""]
         end.
Proof. reflexivity. Qed.

Lemma split_on_join sep (pieces : list string) :
  pieces ≠ [] →
  Forall (λ p, Str.forallb (λ c, negb (bool_decide (c = sep))) p = true) pieces →
  split_on sep (Str.join (String sep "") pieces) = pieces.
Proof.
  intros Hne Hall. induction Hall as [|p rest Hp Hrest IH]; [done|]. clear Hne.
  induction p as [|c p IHp].
  - destruct rest as [|q rest]; [done|].
    rewrite join_cons2, app_empty_l, app_cons, app_empty_l, split_on_cons.
    rewrite bool_decide_eq_true_2 by done. by rewrite IH.
  - simpl in Hp. apply andb_true_iff in Hp as [Hc Hp].
    apply negb_true_iff in Hc. rewrite join_cons_char, split_on_cons.
    rewrite Hc. by rewrite (IHp Hp).
Qed.

(** X6. [allowed_origins] has one origin more than the variable's value has
    commas, so it is never empty (a variable set to the empty text gives one
    empty origin); no origin contains a comma, and none starts or ends with
    white space. *)
Theorem allowed_origins_shape (CORS_ORIGINS : option string) :
  length (allowed_origins CORS_ORIGINS)
  = S (count_char ","
         (default "http://localhost:3000,http://127.0.0.1:3000" CORS_ORIGINS))
  ∧ Forall
      (λ origin,
         Str.strip origin = origin
         ∧ Str.forallb (λ c, negb (bool_decide (c = ","%char))) origin = true)
      (allowed_origins CORS_ORIGINS).
Proof.
  unfold allowed_origins. split.
  - by rewrite length_fmap, split_on_length.
  - apply Forall_fmap. eapply Forall_impl; [apply split_on_pieces|].
    intros p Hp. simpl. split; [apply strip_idem|].
    by apply rstrip_forallb, lstrip_forallb.
Qed.

(** X7. When the variable holds comma-free pieces joined by commas, the
    origins are these pieces, each stripped: white space around the commas
    does not matter. *)
Theorem allowed_origins_of_pieces (pieces : list string) :
  pieces ≠ [] →
  Forall (λ p, Str.forallb (λ c, negb (bool_decide (c = ","%char))) p = true)
    pieces →
  allowed_origins (Some (Str.join "," pieces)) = Str.strip <$> pieces.
Proof.
  intros Hne Hall. unfold allowed_origins. simpl.
  by rewrite split_on_join.
Qed.

(** X7, for two origins written with spaces. *)
Lemma allowed_origins_of_pieces_witness :
  allowed_origins
    (Some (Str.join "," [" https://a.example "; " https://b.example"]))
  = Str.strip <$> [" https://a.example "; " https://b.example"].
Proof.
  apply (allowed_origins_of_pieces [" https://a.example "; " https://b.example"]).
  - discriminate.
  - repeat constructor.
Defined.

(** ** The loader's footprint and the cache over a run *)

Lemma registry_keys_distinct : NoDup (dict_keys MODEL_CONFIG).
Proof. apply (bool_decide_unpack _). by vm_compute. Qed.

Lemma dict_get_key {V} (d : list (string * V)) k v :
  dict_get d k = Some v → k ∈ dict_keys d.
Proof.
  induction d as [|[k' v'] d IH]; [done|]. simpl.
  case_bool_decide as Hk.
  - intros _. subst. apply list_elem_of_here.
  - intros H. apply list_elem_of_further. auto.
Qed.

Section LoaderFacts.

Variable word_tokenize : string → list string.
Variable lemmatize : string → string.
Variable stop_words : gset string.
Variable BASE_DIR : string.

Local Abbreviation load := (load_model_and_vectorizer BASE_DIR).
Local Abbreviation path := (asset_path BASE_DIR).
Local Abbreviation predict_fraud :=
  (predict_fraud word_tokenize lemmatize stop_words BASE_DIR).
Local Abbreviation post_predict :=
  (post_predict word_tokenize lemmatize stop_words BASE_DIR).
Local Abbreviation served :=
  (served word_tokenize lemmatize stop_words BASE_DIR).

Lemma miss_fresh label st :
  dom (model_cache st) = dom (vectorizer_cache st) →
  cached label st = false →
  model_cache st !! label = None ∧ vectorizer_cache st !! label = None.
Proof.
  intros Hdom [H|H]%cached_false.
  - split; [done|]. apply not_elem_of_dom. rewrite <- Hdom.
    by apply not_elem_of_dom.
  - split; [|done]. apply not_elem_of_dom. rewrite Hdom.
    by apply not_elem_of_dom.
Qed.

(** The four outcomes of one loader call. *)
Lemma load_cases d model_label st r st' :
  load d model_label st = (r, st') →
  (st' = st)
  ∨ ∃ label mf vf,
      model_label = Some label ∧ dict_get MODEL_CONFIG label = Some (mf, vf)
      ∧ cached label st = false
      ∧ ((∃ cls msg, d (path mf) = LoadRaises cls msg
            ∧ r = Raise (load_handler label cls msg)
            ∧ st' = log_load (path mf) st)
         ∨ (∃ m cls msg, d (path mf) = Loaded m
              ∧ d (path vf) = LoadRaises cls msg
              ∧ r = Raise (load_handler label cls msg)
              ∧ st' = log_load (path vf) (log_load (path mf) st))
         ∨ (∃ m v, d (path mf) = Loaded m ∧ d (path vf) = Loaded v
              ∧ r = Ok (m, v)
              ∧ st' = print ("Loaded model '" +:+ label +:+ "' successfully.")
                        (cache_store label m v
                           (log_load (path vf) (log_load (path mf) st))))).
Proof.
  destruct (in_config model_label) eqn:Hc.
  2:{ rewrite load_unknown by done. intros [= <- <-]. by left. }
  destruct model_label as [label|]; [|done].
  apply in_config_Some in Hc as Hf. destruct Hf as [[mf vf] Hf].
  destruct (cached label st) eqn:Hhit.
  - apply cached_true in Hhit as (m & v & Hm & Hv).
    rewrite (load_hit _ _ _ _ m v) by done. intros [= <- <-]. by left.
  - rewrite (load_miss _ _ _ _ mf vf) by done. intros Hload. right.
    exists label, mf, vf. split_and!; [done..|].
    destruct (d (path mf)) as [m|cls msg].
    + destruct (d (path vf)) as [v|cls msg]; injection Hload as <- <-.
      * right. right. by exists m, v.
      * right. left. by exists m, cls, msg.
    + injection Hload as <- <-. left. by exists cls, msg.
Qed.

Lemma step_keeps_run_invariant st st' :
  step BASE_DIR st st' → run_invariant st → run_invariant st'.
Proof.
  intros (d & ml & r & Hload) (Hdom & Hreg & Hout & Hio).
  apply load_cases in Hload
    as [->|(label & mf & vf & -> & Hf & Hmiss & Hcase)]; [done|].
  destruct Hcase as [(cls & msg & _ & _ & ->)
                    |[(m & cls & msg & _ & _ & _ & ->)|(m & v & _ & _ & _ & ->)]].
  - unfold run_invariant. simpl. rewrite length_app. simpl.
    split_and!; [done..|lia].
  - unfold run_invariant. simpl. rewrite !length_app. simpl.
    split_and!; [done..|lia].
  - destruct (miss_fresh _ _ Hdom Hmiss) as [Hm Hv].
    unfold run_invariant.
    cbn [model_cache vectorizer_cache loaded_paths stdout print cache_store
         log_load].
    rewrite !dom_insert_L, map_size_insert_None, !length_app by done.
    cbn [length]. split_and!; [by rewrite Hdom| |lia|lia].
    intros l [->%elem_of_singleton|Hl]%elem_of_union; [|auto].
    apply in_config_Some. eauto.
Qed.

Lemma reachable_run_invariant st : reachable BASE_DIR st → run_invariant st.
Proof.
  unfold reachable. revert st. apply rtc_ind_r.
  - unfold run_invariant. simpl. rewrite dom_empty_L, map_size_empty.
    split_and!; [done| |done|lia]. intros l Hl. by apply not_elem_of_empty in Hl.
  - intros st1 st2 _ Hstep IH. by apply (step_keeps_run_invariant st1).
Qed.

(** X8. One loader call reads no file, or the model file only because
    reading it raised, or the model file and then the vectorizer file; it
    prints its line only after both files loaded, and never otherwise. *)
Theorem loader_footprint d model_label st r st' :
  load d model_label st = (r, st') →
  (loaded_paths st' = loaded_paths st ∧ stdout st' = stdout st)
  ∨ ∃ label mf vf,
      model_label = Some label ∧ dict_get MODEL_CONFIG label = Some (mf, vf)
      ∧ ((∃ cls msg, d (path mf) = LoadRaises cls msg
            ∧ loaded_paths st' = loaded_paths st ++ [path mf]
            ∧ stdout st' = stdout st)
         ∨ (∃ m, d (path mf) = Loaded m
              ∧ loaded_paths st' = loaded_paths st ++ [path mf; path vf]
              ∧ ((∃ cls msg, d (path vf) = LoadRaises cls msg
                    ∧ stdout st' = stdout st)
                 ∨ (∃ v, d (path vf) = Loaded v ∧ r = Ok (m, v)
                      ∧ stdout st'
                        = stdout st
                          ++ ["Loaded model '" +:+ label +:+ "' successfully."])))).
Proof.
  intros Hload. apply load_cases in Hload
    as [->|(label & mf & vf & -> & Hf & Hmiss & Hcase)]; [by left|].
  right. exists label, mf, vf. split_and!; [done..|].
  destruct Hcase as [(cls & msg & Hd & _ & ->)
                    |[(m & cls & msg & Hm & Hv & _ & ->)|(m & v & Hm & Hv & -> & ->)]].
  - left. by exists cls, msg.
  - right. exists m. simpl. rewrite <- app_assoc. split_and!; [done..|].
    left. by exists cls, msg.
  - right. exists m. simpl. rewrite <- app_assoc. split_and!; [done..|].
    right. by exists v.
Qed.

(** X9. In every state the process can reach, each cached identifier is a
    key of the registry, so the caches never hold more entries than the
    registry has keys. *)
Theorem cached_labels_registered st :
  reachable BASE_DIR st →
  (∀ label, is_Some (model_cache st !! label) →
     ∃ files, dict_get MODEL_CONFIG label = Some files)
  ∧ (size (model_cache st) ≤ length MODEL_CONFIG)%nat
  ∧ (size (vectorizer_cache st) ≤ length MODEL_CONFIG)%nat.
Proof.
  intros (Hdom & Hreg & _)%reachable_run_invariant.
  assert (∀ label, is_Some (model_cache st !! label) →
     ∃ files, dict_get MODEL_CONFIG label = Some files) as Hfiles.
  { intros l Hl%elem_of_dom. by apply in_config_Some, Hreg. }
  assert (size (dom (model_cache st)) ≤ length MODEL_CONFIG)%nat as Hsize.
  { transitivity (size (list_to_set (C := gset string) (dict_keys MODEL_CONFIG))).
    - apply subseteq_size. intros l Hl. apply elem_of_list_to_set.
      destruct (Hfiles l) as [files Hf]; [by apply elem_of_dom|].
      by apply dict_get_key in Hf.
    - rewrite size_list_to_set by apply registry_keys_distinct.
      unfold dict_keys. by rewrite length_fmap. }
  split_and!; [done| |].
  - by rewrite <- size_dom.
  - by rewrite <- size_dom, <- Hdom.
Qed.

(** X10. In every state the process can reach, the number of lines printed
    equals the number of cached models: each cached model was loaded
    successfully exactly once; and at least two files were read per cached
    model. *)
Theorem one_load_per_cached_model st :
  reachable BASE_DIR st →
  length (stdout st) = size (model_cache st)
  ∧ (2 * size (model_cache st) ≤ length (loaded_paths st))%nat.
Proof. by intros (_ & _ & Hout & Hio)%reachable_run_invariant. Qed.

Lemma step_grows st st' :
  step BASE_DIR st st' → run_invariant st →
  model_cache st ⊆ model_cache st'
  ∧ vectorizer_cache st ⊆ vectorizer_cache st'
  ∧ loaded_paths st `prefix_of` loaded_paths st'
  ∧ stdout st `prefix_of` stdout st'.
Proof.
  intros (d & ml & r & Hload) (Hdom & _).
  apply load_cases in Hload
    as [->|(label & mf & vf & -> & Hf & Hmiss & Hcase)]; [done|].
  destruct Hcase as [(cls & msg & _ & _ & ->)
                    |[(m & cls & msg & _ & _ & _ & ->)|(m & v & _ & _ & _ & ->)]];
    simpl.
  - split_and!; [done..|by apply prefix_app_r|done].
  - split_and!; [done..|by do 2 apply prefix_app_r|done].
  - destruct (miss_fresh _ _ Hdom Hmiss) as [Hm Hv].
    split_and!; [by apply insert_subseteq..|by do 2 apply prefix_app_r
                |by apply prefix_app_r].
Qed.

(** X11. Over any further run the caches only grow: an entry is never
    removed and never replaced, and the load log and the printed lines are
    only appended to. *)
Theorem cache_only_grows st st' :
  reachable BASE_DIR st → rtc (step BASE_DIR) st st' →
  model_cache st ⊆ model_cache st'
  ∧ vectorizer_cache st ⊆ vectorizer_cache st'
  ∧ loaded_paths st `prefix_of` loaded_paths st'
  ∧ stdout st `prefix_of` stdout st'.
Proof.
  intros Hinv%reachable_run_invariant Hrun.
  induction Hrun as [|st st1 st2 Hstep _ IH]; [done|].
  destruct (step_grows _ _ Hstep Hinv) as (Hm & Hv & Hl & Ho).
  destruct IH as (Hm' & Hv' & Hl' & Ho');
    [by apply (step_keeps_run_invariant st)|].
  split_and!; by etrans.
Qed.

End LoaderFacts.

(** ** The prediction route *)

Lemma getitem_ok_iff {A} (l : list A) (i : Z) :
  (∃ x, getitem l i = Ok x) ↔ - Z.of_nat (length l) ≤ i < Z.of_nat (length l).
Proof.
  unfold getitem.
  set (n := Z.of_nat (length l)). set (j := if i <? 0 then i + n else i).
  assert (0 ≤ j < n ↔ - n ≤ i < n) as <-.
  { unfold j. destruct (Z.ltb_spec i 0); lia. }
  destruct (Z.leb_spec 0 j) as [H0|H0]; simpl.
  - destruct (Z.ltb_spec j n) as [Hn|Hn]; simpl.
    + destruct (lookup_lt_is_Some_2 l (Z.to_nat j)) as [x Hx]; [lia|].
      rewrite Hx. split; [lia|]. intros _. by exists x.
    + split; [by intros [x ?]|lia].
  - split; [by intros [x ?]|lia].
Qed.

Lemma getitem_0 {A} (x y : A) : getitem [x; y] 0 = Ok x.
Proof. reflexivity. Qed.

Lemma getitem_1 {A} (x y : A) : getitem [x; y] 1 = Ok y.
Proof. reflexivity. Qed.

Section RouteFacts.

Variable word_tokenize : string → list string.
Variable lemmatize : string → string.
Variable stop_words : gset string.
Variable BASE_DIR : string.

Local Abbreviation load := (load_model_and_vectorizer BASE_DIR).
Local Abbreviation path := (asset_path BASE_DIR).
Local Abbreviation preprocess_text :=
  (preprocess_text word_tokenize lemmatize stop_words).
Local Abbreviation predict_fraud :=
  (predict_fraud word_tokenize lemmatize stop_words BASE_DIR).
Local Abbreviation post_predict :=
  (post_predict word_tokenize lemmatize stop_words BASE_DIR).
Local Abbreviation served :=
  (served word_tokenize lemmatize stop_words BASE_DIR).

(** The route's state is the loader's state. *)
Lemma predict_fraud_state d data st :
  (predict_fraud d data st).2 = (load d (model_label data) st).2.
Proof.
  unfold predict_fraud.
  by destruct (load d (model_label data) st) as [[[m v]|e] st1].
Qed.

Lemma served_step st st' : served st st' → step BASE_DIR st st'.
Proof.
  intros (d & body & r & H). unfold post_predict in H.
  destruct (validate body) as [data|].
  - exists d, (model_label data), (load d (model_label data) st).1.
    assert (st' = (load d (model_label data) st).2) as ->.
    { by rewrite <- predict_fraud_state, H. }
    by destruct (load d (model_label data) st).
  - injection H as _ <-. exists d, None. eexists. by rewrite load_unknown.
Qed.

Lemma load_ok_cached d model_label st m v st' :
  load d model_label st = (Ok (m, v), st') →
  ∃ label, model_label = Some label ∧ in_config (Some label) = true
    ∧ model_cache st' !! label = Some m ∧ vectorizer_cache st' !! label = Some v.
Proof.
  intros Hload.
  destruct (load_ok_registered _ _ _ _ _ _ _ Hload) as (label & files & -> & Hf).
  exists label. split; [done|]. split; [apply in_config_Some; eauto|].
  apply load_cases in Hload as Hc.
  destruct Hc as [->|(l & mf & vf & [= <-] & _ & Hmiss & Hcase)].
  - destruct (cached label st) eqn:Hhit.
    + apply cached_true in Hhit as (m' & v' & Hm & Hv).
      rewrite (load_hit _ _ _ _ m' v') in Hload
        by (try apply in_config_Some; eauto).
      by injection Hload as <- <-.
    + destruct files as [mf vf].
      rewrite (load_miss _ _ _ _ mf vf) in Hload by done.
      destruct (d (path mf)); [|done]. destruct (d (path vf)); [|done].
      injection Hload as _ _ Hst. apply (f_equal loaded_paths) in Hst.
      simpl in Hst. by apply app_two_neq in Hst.
  - destruct Hcase as [(? & ? & _ & ? & _)|[(? & ? & ? & _ & _ & ? & _)
                      |(m' & v' & _ & _ & [= <- <-] & ->)]]; [done..|].
    simpl. by rewrite !lookup_insert_eq.
Qed.

(** The handler is the loader call followed by [respond], which has no
    effect on the state. *)
Lemma predict_fraud_unfold d data st :
  predict_fraud d data st
  = match load d (model_label data) st with
    | (Raise e, st') => (Raise (load_error_to_http e), st')
    | (Ok (model, vectorizer), st') =>
        (respond word_tokenize lemmatize stop_words model vectorizer data, st')
    end.
Proof.
  unfold predict_fraud.
  by destruct (load d (model_label data) st) as [[[m v]|e] st1].
Qed.

(** X12. Requests to the route move the process only along loader calls:
    every state reached by serving requests from start is one the loader
    alone could have produced, so it has the same keys in both caches and
    one printed line per cached model. *)
Theorem served_states_reachable st :
  rtc served initial_state st →
  reachable BASE_DIR st
  ∧ dom (model_cache st) = dom (vectorizer_cache st)
  ∧ length (stdout st) = size (model_cache st).
Proof.
  intros Hrun.
  assert (reachable BASE_DIR st) as Hreach.
  { unfold reachable. eapply rtc_subrel; [|done]. apply served_step. }
  split; [done|].
  by destruct (reachable_run_invariant _ _ Hreach) as (? & _ & ? & _).
Qed.

(** X13. A request that was answered is answered again with the same
    response, whatever the store holds by then and whatever was resolved in
    between, and without any change of state. *)
Theorem predict_fraud_repeatable d data st resp st1 :
  predict_fraud d data st = (Ok resp, st1) →
  ∀ st2, rtc (step BASE_DIR) st1 st2 →
    ∀ d', predict_fraud d' data st2 = (Ok resp, st2).
Proof.
  intros Hok st2 Hrun d'. rewrite predict_fraud_unfold in Hok.
  destruct (load d (model_label data) st) as [[[m v]|e] st'] eqn:Hload; [|done].
  injection Hok as Hresp <-.
  destruct (load_ok_cached _ _ _ _ _ _ Hload) as (label & Hl & Hc & Hm & Hv).
  destruct (rtc_step_keeps_entry _ _ _ _ _ _ Hrun Hm Hv) as [Hm2 Hv2].
  rewrite predict_fraud_unfold, Hl, (load_hit _ _ _ _ m v) by done.
  by rewrite Hresp.
Qed.

Lemma preprocess_text_ok (s : string) : ∃ cleaned, preprocess_text (PyStr s) = Ok cleaned.
Proof.
  destruct (decide (s = "")) as [->|Hs]; [by exists ""|].
  eexists. by apply preprocess_text_nonempty.
Qed.

(** X14. When reading a file of a registered, uncached identifier raises,
    the route answers with status 400 if the exception is a [ValueError], as
    for an unknown label, and with status 500 otherwise; the detail is the
    exception's text, behind the assets-not-found line for a
    [FileNotFoundError] and behind "Error loading model: " for the others. *)
Theorem load_failure_status d data st label mf vf cls msg st' :
  model_label data = Some label →
  dict_get MODEL_CONFIG label = Some (mf, vf) →
  cached label st = false →
  (d (path mf) = LoadRaises cls msg ∧ st' = log_load (path mf) st)
  ∨ (∃ m, d (path mf) = Loaded m ∧ d (path vf) = LoadRaises cls msg
       ∧ st' = log_load (path vf) (log_load (path mf) st)) →
  predict_fraud d data st
  = (Raise
       (HTTPException
          (if decide (cls = ValueError) then 400 else 500)
          (match cls with
           | ValueError => msg
           | FileNotFoundError =>
               "Model assets not found for '" +:+ label +:+ "': " +:+ msg
           | _ => "Error loading model: " +:+ msg
           end)), st').
Proof.
  intros Hl Hf Hmiss Hd.
  rewrite predict_fraud_unfold, Hl, (load_miss _ _ _ _ mf vf) by done.
  destruct Hd as [[-> ->]|(m & -> & -> & ->)]; by destruct cls.
Qed.

(** X15. With a classifier and a vectorizer loaded, the request is answered
    exactly when the probability row has at least two entries and the
    predicted code is a valid index of the row, negative indices counting
    from its end. *)
Theorem predict_fraud_succeeds_iff d data st predict predict_proba transform
    st' cleaned :
  load d (model_label data) st
  = (Ok (Classifier predict predict_proba, Vectorizer transform), st') →
  preprocess_text (PyStr (job_description data)) = Ok cleaned →
  (∃ resp, predict_fraud d data st = (Ok resp, st'))
  ↔ (2 ≤ length (predict_proba (transform cleaned)))%nat
    ∧ - Z.of_nat (length (predict_proba (transform cleaned)))
      ≤ predict (transform cleaned)
      < Z.of_nat (length (predict_proba (transform cleaned))).
Proof.
  intros Hload Hclean. rewrite predict_fraud_unfold, Hload.
  unfold respond. rewrite Hclean. simpl.
  set (row := predict_proba (transform cleaned)).
  set (code := predict (transform cleaned)). split.
  - intros [resp [= Hresp]].
    apply bind_ok in Hresp as (conf & Hconf & Hresp).
    apply bind_ok in Hresp as (p0 & Hp0 & Hresp).
    apply bind_ok in Hresp as (p1 & Hp1 & Hresp).
    assert (∃ x, getitem row code = Ok x) as Hc%getitem_ok_iff by eauto.
    assert (∃ x, getitem row 1 = Ok x) as H1%getitem_ok_iff by eauto.
    split; lia.
  - intros [Hlen Hcode].
    destruct (proj2 (getitem_ok_iff row code)) as [conf ->]; [done|].
    destruct (proj2 (getitem_ok_iff row 0)) as [p0 ->]; [lia|].
    destruct (proj2 (getitem_ok_iff row 1)) as [p1 ->]; [lia|].
    simpl. eauto.
Qed.

(** X16. When the loaded pair is not a classifier with a vectorizer (the
    files hold something else), the request fails with an [AttributeError]
    that no handler turns into an HTTP error; the pair is cached all the
    same, so every later request for the identifier fails in the same way
    without the store being read again. *)
Theorem wrong_artifact_stays_cached d data st m v st1 :
  load d (model_label data) st = (Ok (m, v), st1) →
  (∀ transform, v ≠ Vectorizer transform)
  ∨ (∀ predict predict_proba, m ≠ Classifier predict predict_proba) →
  ∃ msg,
    predict_fraud d data st = (Raise (Exn AttributeError msg), st1)
    ∧ ∀ st2, rtc (step BASE_DIR) st1 st2 →
        ∀ d', predict_fraud d' data st2 = (Raise (Exn AttributeError msg), st2).
Proof.
  intros Hload Hbad.
  assert (∃ msg, respond word_tokenize lemmatize stop_words m v data
                 = Raise (Exn AttributeError msg)) as [msg Hmsg].
  { unfold respond.
    destruct (preprocess_text_ok (job_description data)) as [cleaned ->].
    simpl. destruct v as [transform|p pp]; simpl.
    - destruct m as [t|p pp]; simpl; [eauto|].
      destruct Hbad as [Hv|Hm]; [by destruct (Hv transform)|by destruct (Hm p pp)].
    - eauto. }
  exists msg. split.
  - by rewrite predict_fraud_unfold, Hload, Hmsg.
  - intros st2 Hrun d'.
    destruct (load_ok_cached _ _ _ _ _ _ Hload) as (label & Hl & Hc & Hm & Hv).
    destruct (rtc_step_keeps_entry _ _ _ _ _ _ Hrun Hm Hv) as [Hm2 Hv2].
    rewrite predict_fraud_unfold, Hl, (load_hit _ _ _ _ m v) by done.
    by rewrite Hmsg.
Qed.

(** X17. When the two probabilities of a response sum to one and its code is
    the index of the larger one, its confidence is that larger probability,
    and so at least one half. *)
Theorem confidence_at_least_half d data st resp st' :
  predict_fraud d data st = (Ok resp, st') →
  (probabilities_non_fraudulent resp + probabilities_fraudulent resp == 1)%Q →
  prediction_code resp
  = index_of_larger (probabilities_non_fraudulent resp)
      (probabilities_fraudulent resp) →
  (1 # 2 <= confidence_score resp)%Q
  ∧ (probabilities_non_fraudulent resp <= confidence_score resp)%Q
  ∧ (probabilities_fraudulent resp <= confidence_score resp)%Q.
Proof.
  rewrite predict_fraud_unfold.
  destruct (load d (model_label data) st) as [[[m v]|e] st1]; [|done].
  intros [= Hresp _]. unfold respond in Hresp.
  apply bind_ok in Hresp as (cleaned & _ & Hresp).
  apply bind_ok in Hresp as (x & _ & Hresp).
  apply bind_ok in Hresp as (code & _ & Hresp).
  apply bind_ok in Hresp as (row & _ & Hresp).
  apply bind_ok in Hresp as (conf & Hconf & Hresp).
  apply bind_ok in Hresp as (p0 & Hp0 & Hresp).
  apply bind_ok in Hresp as (p1 & Hp1 & Hresp).
  injection Hresp as <-. simpl. unfold index_of_larger. intros Hsum Hcode.
  destruct (Qle_bool p1 p0) eqn:Hle.
  - apply Qle_bool_iff in Hle. rewrite Hcode, Hp0 in Hconf.
    injection Hconf as <-. split_and!; lra.
  - assert (¬ (p1 <= p0)%Q) as Hlt.
    { intros H%Qle_bool_iff. congruence. }
    apply Qnot_le_lt in Hlt. rewrite Hcode, Hp1 in Hconf.
    injection Hconf as <-. split_and!; lra.
Qed.

(** X18. A request whose model label is not a key of the registry is
    answered with status 400 and the unknown-label text; the state is
    untouched, and the job description plays no part. *)
Theorem unknown_label_status d data st :
  in_config (model_label data) = false →
  predict_fraud d data st
  = (Raise (HTTPException 400 (unknown_label_message (model_label data))), st)
  ∧ ∀ job, predict_fraud d
             {| job_description := job; model_label := model_label data |} st
           = predict_fraud d data st.
Proof.
  intros Hc. split.
  - by rewrite predict_fraud_unfold, load_unknown.
  - intros job. rewrite !predict_fraud_unfold. simpl.
    by rewrite load_unknown.
Qed.

End RouteFacts.

(** ** The further properties at concrete inputs *)

(** X8, for the first request for ["nb_bow"]: both files are read, in this
    order, and the line is printed. *)
Lemma loader_footprint_witness :
  loaded_paths SampleDisk.after_nb_bow
  = ["/app/model_assets/nb_model_bow.joblib";
     "/app/model_assets/bow_vectorizer.joblib"]
  ∧ stdout SampleDisk.after_nb_bow = ["Loaded model 'nb_bow' successfully."].
Proof.
  destruct (loader_footprint SampleDisk.base_dir SampleDisk.good
              (Some "nb_bow") initial_state
              (Ok (SampleDisk.nb_model_bow, SampleDisk.bow_vectorizer))
              SampleDisk.after_nb_bow)
    as [[Hl Ho]|(label & mf & vf & [= <-] & [= <- <-] & Hcase)].
  - reflexivity.
  - discriminate Hl.
  - destruct Hcase as [(cls & msg & Hd & _)|(m & _ & Hl & [(cls & msg & Hd & _)|(v & _ & _ & Ho)])].
    + discriminate Hd.
    + discriminate Hd.
    + split; [exact Hl|exact Ho].
Defined.

(** X9, in the state after the first request for ["nb_bow"]. *)
Lemma cached_labels_registered_witness :
  (∀ label, is_Some (model_cache SampleDisk.after_nb_bow !! label) →
     ∃ files, dict_get MODEL_CONFIG label = Some files)
  ∧ (size (model_cache SampleDisk.after_nb_bow) ≤ length MODEL_CONFIG)%nat
  ∧ (size (vectorizer_cache SampleDisk.after_nb_bow) ≤ length MODEL_CONFIG)%nat.
Proof.
  apply (cached_labels_registered SampleDisk.base_dir SampleDisk.after_nb_bow).
  apply rtc_once. exists SampleDisk.good, (Some "nb_bow"). eexists.
  reflexivity.
Defined.

(** X10, in the state after the first request for ["nb_bow"]. *)
Lemma one_load_per_cached_model_witness :
  length (stdout SampleDisk.after_nb_bow)
  = size (model_cache SampleDisk.after_nb_bow)
  ∧ (2 * size (model_cache SampleDisk.after_nb_bow)
     ≤ length (loaded_paths SampleDisk.after_nb_bow))%nat.
Proof.
  apply (one_load_per_cached_model SampleDisk.base_dir SampleDisk.after_nb_bow).
  apply rtc_once. exists SampleDisk.good, (Some "nb_bow"). eexists.
  reflexivity.
Defined.

(** X11, from the state after the first request for ["nb_bow"] through a
    failed request for ["lr_bow"]. *)
Lemma cache_only_grows_witness :
  model_cache SampleDisk.after_nb_bow
  ⊆ model_cache
      (load_model_and_vectorizer SampleDisk.base_dir SampleDisk.good
         (Some "lr_bow") SampleDisk.after_nb_bow).2
  ∧ vectorizer_cache SampleDisk.after_nb_bow
    ⊆ vectorizer_cache
        (load_model_and_vectorizer SampleDisk.base_dir SampleDisk.good
           (Some "lr_bow") SampleDisk.after_nb_bow).2
  ∧ loaded_paths SampleDisk.after_nb_bow
    `prefix_of` loaded_paths
        (load_model_and_vectorizer SampleDisk.base_dir SampleDisk.good
           (Some "lr_bow") SampleDisk.after_nb_bow).2
  ∧ stdout SampleDisk.after_nb_bow
    `prefix_of` stdout
        (load_model_and_vectorizer SampleDisk.base_dir SampleDisk.good
           (Some "lr_bow") SampleDisk.after_nb_bow).2.
Proof.
  apply (cache_only_grows SampleDisk.base_dir).
  - apply rtc_once. exists SampleDisk.good, (Some "nb_bow"). eexists.
    reflexivity.
  - apply rtc_once. exists SampleDisk.good, (Some "lr_bow"). eexists.
    reflexivity.
Defined.

(** X12, after one request without a model label. *)
Lemma served_states_reachable_witness :
  reachable SampleDisk.base_dir SampleDisk.after_nb_bow
  ∧ dom (model_cache SampleDisk.after_nb_bow)
    = dom (vectorizer_cache SampleDisk.after_nb_bow)
  ∧ length (stdout SampleDisk.after_nb_bow)
    = size (model_cache SampleDisk.after_nb_bow).
Proof.
  apply (served_states_reachable
           Sample.word_tokenize Sample.lemmatize Sample.stop_words).
  apply rtc_once.
  exists SampleDisk.good,
    {| body_job_description := Text "Earn money from home";
       body_model_label := Absent |}.
  eexists. reflexivity.
Defined.

(** X13: the sample request is answered again from the cache after the store
    has lost every file. *)
Lemma predict_fraud_repeatable_witness :
  predict_fraud Sample.word_tokenize Sample.lemmatize Sample.stop_words
    SampleDisk.base_dir SampleDisk.empty SampleDisk.request
    SampleDisk.after_nb_bow
  = (Ok SampleDisk.response, SampleDisk.after_nb_bow).
Proof.
  apply (predict_fraud_repeatable
           Sample.word_tokenize Sample.lemmatize Sample.stop_words
           SampleDisk.base_dir SampleDisk.good SampleDisk.request
           initial_state SampleDisk.response SampleDisk.after_nb_bow).
  - vm_compute. reflexivity.
  - apply rtc_refl.
Defined.

(** X14: a model file of an unsupported pickle protocol is answered with
    status 400. *)
Lemma load_failure_status_witness :
  predict_fraud Sample.word_tokenize Sample.lemmatize Sample.stop_words
    SampleDisk.base_dir MoreDisks.bad_protocol SampleDisk.request initial_state
  = (Raise (HTTPException 400 "unsupported pickle protocol: 6"),
     log_load "/app/model_assets/nb_model_bow.joblib" initial_state).
Proof.
  apply (load_failure_status
           Sample.word_tokenize Sample.lemmatize Sample.stop_words
           SampleDisk.base_dir MoreDisks.bad_protocol SampleDisk.request
           initial_state "nb_bow" "nb_model_bow.joblib" "bow_vectorizer.joblib"
           ValueError "unsupported pickle protocol: 6").
  - reflexivity.
  - reflexivity.
  - reflexivity.
  - left. split; reflexivity.
Defined.

(** X15, for the sample request on the good store. *)
Lemma predict_fraud_succeeds_iff_witness :
  (∃ resp,
     predict_fraud Sample.word_tokenize Sample.lemmatize Sample.stop_words
       SampleDisk.base_dir SampleDisk.good SampleDisk.request initial_state
     = (Ok resp, SampleDisk.after_nb_bow))
  ↔ (2 ≤ length [1 # 10; 9 # 10]%Q)%nat
    ∧ - Z.of_nat (length [1 # 10; 9 # 10]%Q) ≤ 1
      < Z.of_nat (length [1 # 10; 9 # 10]%Q).
Proof.
  apply (predict_fraud_succeeds_iff
           Sample.word_tokenize Sample.lemmatize Sample.stop_words
           SampleDisk.base_dir SampleDisk.good SampleDisk.request initial_state
           (λ _, 1) (λ _, [1 # 10; 9 # 10]%Q)
           (λ text, [inject_Z (Str.len text)])
           SampleDisk.after_nb_bow "earn money home").
  - reflexivity.
  - vm_compute. reflexivity.
Defined.

(** X16: on the swapped store the request fails with an [AttributeError],
    and it fails in the same way from then on, also on the good store. *)
Lemma wrong_artifact_stays_cached_witness :
  ∃ msg,
    predict_fraud Sample.word_tokenize Sample.lemmatize Sample.stop_words
      SampleDisk.base_dir MoreDisks.swapped SampleDisk.request initial_state
    = (Raise (Exn AttributeError msg), MoreDisks.after_swapped)
    ∧ predict_fraud Sample.word_tokenize Sample.lemmatize Sample.stop_words
        SampleDisk.base_dir SampleDisk.good SampleDisk.request
        MoreDisks.after_swapped
      = (Raise (Exn AttributeError msg), MoreDisks.after_swapped).
Proof.
  destruct (wrong_artifact_stays_cached
              Sample.word_tokenize Sample.lemmatize Sample.stop_words
              SampleDisk.base_dir MoreDisks.swapped SampleDisk.request
              initial_state SampleDisk.nb_model_bow SampleDisk.nb_model_bow
              MoreDisks.after_swapped)
    as (msg & Hfirst & Hlater).
  - reflexivity.
  - left. intros transform. discriminate.
  - exists msg. split; [exact Hfirst|].
    apply Hlater. apply rtc_refl.
Defined.

(** X17, for the sample response. *)
Lemma confidence_at_least_half_witness :
  (1 # 2 <= confidence_score SampleDisk.response)%Q
  ∧ (probabilities_non_fraudulent SampleDisk.response
     <= confidence_score SampleDisk.response)%Q
  ∧ (probabilities_fraudulent SampleDisk.response
     <= confidence_score SampleDisk.response)%Q.
Proof.
  apply (confidence_at_least_half
           Sample.word_tokenize Sample.lemmatize Sample.stop_words
           SampleDisk.base_dir SampleDisk.good SampleDisk.request
           initial_state SampleDisk.response SampleDisk.after_nb_bow).
  - vm_compute. reflexivity.
  - reflexivity.
  - reflexivity.
Defined.

(** X18, for a label that is not registered. *)
Lemma unknown_label_status_witness :
  predict_fraud Sample.word_tokenize Sample.lemmatize Sample.stop_words
    SampleDisk.base_dir SampleDisk.good
    {| job_description := "Earn money from home";
       model_label := Some "made_up_model" |} SampleDisk.after_nb_bow
  = (Raise (HTTPException 400 (unknown_label_message (Some "made_up_model"))),
     SampleDisk.after_nb_bow).
Proof.
  apply (unknown_label_status
           Sample.word_tokenize Sample.lemmatize Sample.stop_words
           SampleDisk.base_dir SampleDisk.good
           {| job_description := "Earn money from home";
              model_label := Some "made_up_model" |} SampleDisk.after_nb_bow).
  reflexivity.
Defined.
